(** * A chess bot for a chat platform: sessions, transcript parsing, handlers

    Shallow embedding of [bot.py].  Python strings are sequences of Unicode
    code points, exceptions are an explicit result type, the registry
    [games] is a finite map keyed by user id, and the external collaborators
    (the chess rules library, the speech and image services, the chat
    platform) are interfaces whose answers are inputs of the model. *)

From Stdlib Require Import String Ascii NArith ZArith Lia DecimalString.
From stdpp Require Import base option list gmap.

Set Default Proof Using "Type".
Local Open Scope N_scope.
Local Open Scope nat_scope.

(** ** Python strings *)

(** A Python [str]: the list of its code points. *)
Definition str : Type := list N.

(** A string literal of the source whose characters are all ASCII. *)
Definition u (s : string) : str :=
  List.map N_of_ascii (list_ascii_of_string s).

(** The six Turkish letters the source names, as code points. *)
Definition s_cedilla   : N := 351%N.  (* U+015F *)
Definition dotless_i   : N := 305%N.  (* U+0131 *)
Definition g_breve     : N := 287%N.  (* U+011F *)
Definition u_diaeresis : N := 252%N.  (* U+00FC *)
Definition o_diaeresis : N := 246%N.  (* U+00F6 *)
Definition c_cedilla   : N := 231%N.  (* U+00E7 *)

(** The part of the interpreter's Unicode database the source consults:
    [str.lower], and the character classes behind [str.strip], [str.split]
    and [str.isalnum]. *)
Class PyUnicode := {
  str_lower : str -> str;
  isspace : N -> bool;
  isalnum : N -> bool
}.

(** Exceptions the modelled code can meet. *)
Inductive exn :=
| IndexError | ValueError | TelegramError | RequestException
| CalledProcessError | FileNotFoundError | UnknownValueError | RequestError
| OSError | OtherError.

#[global] Instance exn_eq_dec : EqDecision exn.
Proof. solve_decision. Defined.

Inductive result (A : Type) : Type :=
| Ok (a : A)
| Raise (e : exn).
Arguments Ok {A} a.
Arguments Raise {A} e.

#[global] Instance result_ret : MRet result := fun _ a => Ok a.
#[global] Instance result_bind : MBind result := fun _ _ f m =>
  match m with
  | Ok a => f a
  | Raise e => Raise e
  end.

(** [l[i]] for a non-negative index. *)
Definition item {A} (l : list A) (i : nat) : result A :=
  match nth_error l i with
  | Some a => Ok a
  | None => Raise IndexError
  end.

(** [s[i]] on a string: a string of one character. *)
Definition char_at (s : str) (i : nat) : result str :=
  c ← item s i; mret [c].

(** Python's short-circuit [a and b] on fallible operands. *)
Definition and_then (a b : result bool) : result bool :=
  x ← a; if (x : bool) then b else mret false.

Fixpoint is_prefix (p s : str) : bool :=
  match p, s with
  | [], _ => true
  | _ :: _, [] => false
  | a :: p', b :: s' => if N.eqb a b then is_prefix p' s' else false
  end.

(** [needle in hay] on strings. *)
Fixpoint str_in (needle hay : str) : bool :=
  is_prefix needle hay ||
  match hay with
  | [] => false
  | _ :: hay' => str_in needle hay'
  end.

(** [s.replace(old, new)] for a non-empty [old]: the leftmost occurrences,
    not overlapping.  [skip] counts the characters of a matched occurrence
    still to be dropped. *)
Fixpoint replace_go (old new : str) (skip : nat) (s : str) : str :=
  match s with
  | [] => []
  | c :: s' =>
      match skip with
      | S k => replace_go old new k s'
      | O =>
          if is_prefix old s
          then new ++ replace_go old new (length old - 1) s'
          else c :: replace_go old new 0 s'
      end
  end.

Definition replace (old new s : str) : str := replace_go old new 0 s.

(** [sep.join(words)]. *)
Fixpoint join (sep : str) (words : list str) : str :=
  match words with
  | [] => []
  | [w] => w
  | w :: ws => w ++ sep ++ join sep ws
  end.

Section Heuristic.
Context {U : PyUnicode}.

(** [s.strip()]. *)
Fixpoint lstrip (s : str) : str :=
  match s with
  | [] => []
  | c :: s' => if isspace c then lstrip s' else s
  end.
Definition strip (s : str) : str := rev (lstrip (rev (lstrip s))).

(** [s.split()]: the maximal runs of characters that are not whitespace.
    [cur] holds the current run, reversed. *)
Fixpoint split_go (cur : str) (s : str) : list str :=
  match s with
  | [] => match cur with [] => [] | _ => [rev cur] end
  | c :: s' =>
      if isspace c
      then match cur with
           | [] => split_go [] s'
           | _ => rev cur :: split_go [] s'
           end
      else split_go (c :: cur) s'
  end.

Definition split (s : str) : list str := split_go [] s.

(** Lines 396 to 401: lower case, strip, Turkish letters to ASCII. *)
Definition normalise (voice_text : str) : str :=
  let text := strip (str_lower voice_text) in
  let text := replace [s_cedilla] (u "s") text in
  let text := replace [dotless_i] (u "i") text in
  let text := replace [g_breve] (u "g") text in
  let text := replace [u_diaeresis] (u "u") text in
  let text := replace [o_diaeresis] (u "o") text in
  replace [c_cedilla] (u "c") text.

(** The dictionary [pieces], in insertion order. *)
Definition pieces : list (str * str) :=
  [ (u "at", u "N"); (u "knight", u "N");
    (u "fil", u "B"); (u "bishop", u "B");
    (u "kale", u "R"); (u "rook", u "R");
    (u "vezir", u "Q"); (u "queen", u "Q");
    (u "sah", u "K"); (u "king", u "K");
    (s_cedilla :: u "ah", u "K") ].

(** Line 414 and line 416. *)
Definition short_castle_phrase (text : str) : bool :=
  str_in (u "k" ++ dotless_i :: u "sa rok") text
  || str_in (u "kisa rok") text || str_in (u "o-o") text.

Definition long_castle_phrase (text : str) : bool :=
  str_in (u "uzun rok") text || str_in (u "o-o-o") text.

(** Lines 420 to 425: the first keyword of [pieces] found in the text is
    removed from it (every occurrence) and its letter is kept. *)
Fixpoint strip_piece (tbl : list (str * str)) (text : str)
  : option str * str :=
  match tbl with
  | [] => (None, text)
  | (tr, en) :: tbl' =>
      if str_in tr text then (Some en, replace tr [] text)
      else strip_piece tbl' text
  end.

(** Line 437: is the cleaned word a square name? *)
Definition square_test (clean_word : str) : result bool :=
  and_then (mret (length clean_word =? 2))
 (and_then (c ← char_at clean_word 0; mret (str_in c (u "abcdefgh")))
           (c ← char_at clean_word 1; mret (str_in c (u "12345678")))).

(** Line 440: is the cleaned word a complete coordinate move? *)
Definition combined_test (clean_word : str) : result bool :=
  and_then (mret (length clean_word =? 4))
 (and_then (c ← char_at clean_word 0; mret (str_in c (u "abcdefgh")))
 (and_then (c ← char_at clean_word 1; mret (str_in c (u "12345678")))
 (and_then (c ← char_at clean_word 2; mret (str_in c (u "abcdefgh")))
           (c ← char_at clean_word 3; mret (str_in c (u "12345678")))))).

(** How the loop of lines 432 to 441 ends. *)
Inductive scan_end :=
| Returned (move : str)
| Scanned (coords : list str).

Fixpoint scan_words (words : list str) (coords : list str)
  : result scan_end :=
  match words with
  | [] => mret (Scanned coords)
  | word :: words' =>
      let clean_word := List.filter isalnum word in
      sq ← square_test clean_word;
      if (sq : bool) then scan_words words' (coords ++ [clean_word])
      else
        full ← combined_test clean_word;
        if (full : bool) then mret (Returned clean_word)
        else scan_words words' coords
  end.

(** Lines 444 to 458. *)
Definition build_move (piece : option str) (coords : list str)
  : result (option str) :=
  if length coords =? 1 then
    match piece with
    | Some p => c0 ← item coords 0; mret (Some (p ++ c0))
    | None =>
        coord ← item coords 0;
        r ← char_at coord 1;
        let piece_rank := if str_in r (u "34") then u "2" else u "7" in
        f ← char_at coord 0;
        mret (Some (f ++ piece_rank ++ coord))
    end
  else if length coords =? 2 then
    a ← item coords 0; b ← item coords 1; mret (Some (a ++ b))
  else mret None.

(** The body of the [try] block of [convert_voice_to_move]. *)
Definition convert_body (voice_text : str) : result (option str) :=
  let text := normalise voice_text in
  if short_castle_phrase text then mret (Some (u "O-O"))
  else if long_castle_phrase text then mret (Some (u "O-O-O"))
  else
    let '(piece, text) := strip_piece pieces text in
    let text := join (u " ") (split text) in
    e ← scan_words (split text) [];
    match e with
    | Returned move => mret (Some move)
    | Scanned coords => build_move piece coords
    end.

(** [convert_voice_to_move]: any exception of the body is logged and
    turned into [None]. *)
Definition convert_voice_to_move (voice_text : str) : option str :=
  match convert_body voice_text with
  | Ok r => r
  | Raise _ => None
  end.

End Heuristic.

(** ** The claims' vocabulary for transcripts *)

Section Tokens.
Context {U : PyUnicode}.

(** A two-character square token: a file letter and a rank digit. *)
Definition is_square (w : str) : bool :=
  match w with
  | [f; r] => str_in [f] (u "abcdefgh") && str_in [r] (u "12345678")
  | _ => false
  end.

(** A four-character combined token: two square names in a row. *)
Definition is_combined (w : str) : bool :=
  match w with
  | [f1; r1; f2; r2] =>
      str_in [f1] (u "abcdefgh") && str_in [r1] (u "12345678")
      && str_in [f2] (u "abcdefgh") && str_in [r2] (u "12345678")
  | _ => false
  end.

(** The transcript contains a castle phrase (lines 414 and 416). *)
Definition castle_phrase (voice_text : str) : bool :=
  short_castle_phrase (normalise voice_text)
  || long_castle_phrase (normalise voice_text).

(** The piece letter found, and the text left after keyword stripping. *)
Definition matched_piece (voice_text : str) : option str :=
  fst (strip_piece pieces (normalise voice_text)).

Definition stripped_text (voice_text : str) : str :=
  snd (strip_piece pieces (normalise voice_text)).

(** The words of the stripped text, each reduced to its alphanumeric
    characters, as the loop of line 432 sees them. *)
Definition remaining_words (voice_text : str) : list str :=
  List.map (List.filter isalnum)
    (split (join (u " ") (split (stripped_text voice_text)))).

Definition square_tokens (voice_text : str) : list str :=
  List.filter is_square (remaining_words voice_text).

Definition combined_tokens (voice_text : str) : list str :=
  List.filter is_combined (remaining_words voice_text).

(** The move the claim expects from a single square token [sq]: the piece
    letter and the square, or a pawn move along the file of [sq] from
    rank 2 (to rank 3 or 4) or from rank 7 (to any other rank). *)
Definition synthesised (piece : option str) (sq : str) (out : option str)
  : Prop :=
  match piece with
  | Some p => out = Some (p ++ sq)
  | None =>
      exists f r : N,
        sq = [f; r] /\
        out = Some ([f] ++ (if str_in [r] (u "34") then u "2" else u "7")
                        ++ [f; r])
  end.

(** The loop of line 432 with the indexing already checked. *)
Fixpoint scan_pure (words : list str) (coords : list str) : scan_end :=
  match words with
  | [] => Scanned coords
  | word :: words' =>
      let clean_word := List.filter isalnum word in
      if is_square clean_word then scan_pure words' (coords ++ [clean_word])
      else if is_combined clean_word then Returned clean_word
      else scan_pure words' coords
  end.

End Tokens.

(** ** A concrete Unicode table

    The interpreter's tables on the code points below U+0180 (Basic Latin,
    Latin-1 Supplement, Latin Extended-A), where English and Turkish
    transcripts live.  The whitespace class is the complete one; above
    U+017F [lower_char] is the identity and [latin_isalnum] answers no. *)

Definition in_range (lo hi c : N) : bool := (lo <=? c)%N && (c <=? hi)%N.

Definition latin_isspace (c : N) : bool :=
  in_range 9 13 c || in_range 28 32 c || (c =? 133)%N || (c =? 160)%N
  || (c =? 5760)%N || in_range 8192 8202 c || (c =? 8232)%N
  || (c =? 8233)%N || (c =? 8239)%N || (c =? 8287)%N || (c =? 12288)%N.

Definition latin_isalnum (c : N) : bool :=
  in_range 48 57 c || in_range 65 90 c || in_range 97 122 c
  || (c =? 170)%N || (c =? 178)%N || (c =? 179)%N || (c =? 181)%N
  || (c =? 185)%N || (c =? 186)%N || in_range 188 190 c
  || in_range 192 214 c || in_range 216 246 c || in_range 248 383 c.

Definition lower_char (c : N) : str :=
  if in_range 65 90 c then [c + 32]%N
  else if in_range 192 222 c && negb (c =? 215)%N then [c + 32]%N
  else if (c =? 304)%N then [105; 775]%N
  else if (in_range 256 311 c || in_range 330 375 c) && N.even c
       then [c + 1]%N
  else if (in_range 313 328 c || in_range 377 382 c) && N.odd c
       then [c + 1]%N
  else if (c =? 376)%N then [255]%N
  else [c].

#[global] Instance latin_tables : PyUnicode := {|
  str_lower := fun s => List.concat (List.map lower_char s);
  isspace := latin_isspace;
  isalnum := latin_isalnum
|}.

(** ** The chess rules library, as the bot consumes it *)

(** Squares are the integers 0 to 63: a1 is 0, h1 is 7, h8 is 63. *)
Definition Square : Type := nat.

Inductive Color := WHITE | BLACK.
Inductive PieceType := PAWN | KNIGHT | BISHOP | ROOK | QUEEN | KING.

Record Piece := { piece_type : PieceType; color : Color }.

(** [chess.Move(from_square, to_square, promotion)]. *)
Record Move := {
  from_square : Square;
  to_square : Square;
  promotion : option PieceType
}.

#[global] Instance Color_eq_dec : EqDecision Color.
Proof. solve_decision. Defined.
#[global] Instance PieceType_eq_dec : EqDecision PieceType.
Proof. solve_decision. Defined.
#[global] Instance Piece_eq_dec : EqDecision Piece.
Proof. solve_decision. Defined.
#[global] Instance Move_eq_dec : EqDecision Move.
Proof. solve_decision. Defined.

(** What the source asks of the rules library.  A [ValueError] of a parser
    is the answer [None]. *)
Class ChessRules := {
  Board : Type;
  starting_board : Board;                      (* chess.Board() *)
  turn : Board -> Color;                       (* board.turn *)
  piece_at : Board -> Square -> option Piece;  (* board.piece_at(sq) *)
  legal_moves : Board -> list Move;            (* list(board.legal_moves) *)
  push : Board -> Move -> Board;               (* board.push(move) *)
  is_game_over : Board -> bool;                (* board.is_game_over() *)
  parse_san : Board -> str -> option Move;     (* board.parse_san(s) *)
  from_uci : str -> option Move;               (* chess.Move.from_uci(s) *)
  uci : Move -> str;                           (* move.uci() *)
  parse_square : str -> option Square          (* chess.parse_square(s) *)
}.

(** ** The game session: class [ChessGame] *)

Section Session.
Context {R : ChessRules}.

(** The handle of the engine process, modelled by what [engine.play]
    answers for a position under the two-second limit: a move, or an
    exception. *)
Definition Engine : Type := Board -> result Move.

Record ChessGame := {
  board : Board;
  user_id : Z;
  user_color : Color;
  current_message_id : option Z;
  selected_square : option Square;
  engine : option Engine
}.

Definition set_board (b : Board) (g : ChessGame) : ChessGame :=
  {| board := b; user_id := user_id g; user_color := user_color g;
     current_message_id := current_message_id g;
     selected_square := selected_square g; engine := engine g |}.

Definition set_current_message_id (m : option Z) (g : ChessGame)
  : ChessGame :=
  {| board := board g; user_id := user_id g; user_color := user_color g;
     current_message_id := m;
     selected_square := selected_square g; engine := engine g |}.

Definition set_selected_square (s : option Square) (g : ChessGame)
  : ChessGame :=
  {| board := board g; user_id := user_id g; user_color := user_color g;
     current_message_id := current_message_id g;
     selected_square := s; engine := engine g |}.

(** [ChessGame.__init__].  [stockfish] is the engine process when its
    binary exists and starts, [None] otherwise. *)
Definition new_ChessGame (stockfish : option Engine) (uid : Z)
  : ChessGame :=
  {| board := starting_board; user_id := uid; user_color := WHITE;
     current_message_id := None; selected_square := None;
     engine := stockfish |}.

(** [random.choice(l)]: the draw [rnd] selects an element; an empty list
    raises [IndexError]. *)
Definition random_choice {A} (rnd : nat) (l : list A) : result A :=
  item l (rnd mod length l).

(** Lines 60 to 69: SAN first, then UCI; [None] when both raise. *)
Definition parse_move (b : Board) (move_str : str) : option Move :=
  match parse_san b move_str with
  | Some move => Some move
  | None => from_uci move_str
  end.

(** Lines 80 to 91: the engine's move, or a random legal move when there
    is no engine or the engine raises. *)
Definition choose_bot_move (rnd : nat) (self : ChessGame) : result Move :=
  match engine self with
  | Some play =>
      match play (board self) with
      | Ok bot_move => Ok bot_move
      | Raise _ => random_choice rnd (legal_moves (board self))
      end
  | None => random_choice rnd (legal_moves (board self))
  end.

(** [ChessGame.make_move]: the session afterwards and the pair returned.
    An exception past line 74 is caught on line 102 with the user's move
    already on the board. *)
Definition make_move (rnd : nat) (self : ChessGame) (move_str : str)
  : ChessGame * (bool * option str) :=
  match parse_move (board self) move_str with
  | None => (self, (false, None))
  | Some move =>
      if bool_decide (move ∈ legal_moves (board self)) then
        let self := set_board (push (board self) move) self in
        if negb (is_game_over (board self))
           && negb (bool_decide (turn (board self) = user_color self))
        then
          match choose_bot_move rnd self with
          | Ok bot_move =>
              let self := set_board (push (board self) bot_move) self in
              (self, (true, Some (uci bot_move)))
          | Raise _ => (self, (false, None))
          end
        else (self, (true, None))
      else (self, (false, None))
  end.

(** ** The tap keyboard *)

Record InlineKeyboardButton := {
  button_text : str;
  callback_data : str
}.

(** [str(n)] on a natural number. *)
Definition str_of_nat (n : nat) : str :=
  u (NilEmpty.string_of_uint (Nat.to_uint n)).

(** [range(7, -1, -1)] and [range(8)]. *)
Definition ranks_down : list nat := rev (seq 0 8).
Definition files_across : list nat := seq 0 8.

(** [ChessGame.create_board_keyboard]; the button text is U+200C. *)
Definition create_board_keyboard (self : ChessGame)
  : result (list (list InlineKeyboardButton)) :=
  let files := u "abcdefgh" in
  mapM (fun rank =>
    mapM (fun file =>
      f ← char_at files file;
      let square_name := f ++ str_of_nat (rank + 1) in
      mret {| button_text := [8204%N];
              callback_data := u "square_" ++ square_name |})
      files_across)
    ranks_down.

End Session.

(** ** A rules engine to run the handlers on

    The library's board restricted to the moves of pawns (advances and
    captures, without en passant and promotion) and of knights, with no
    test for check.  On the starting position, and after any first move of
    White, its legal moves are those of chess.  The square names and the
    coordinate parser follow the library (drops left out); the algebraic
    parser covers piece letter, origin hint, capture sign and destination. *)

(** [chess.SQUARE_NAMES]: a1, b1, ..., h1, a2, ..., h8. *)
Definition SQUARE_NAMES : list str :=
  r ← u "12345678"; f ← u "abcdefgh"; [[f; r]].

(** [SQUARE_NAMES.index(name)]. *)
Fixpoint index_of (name : str) (names : list str) : option nat :=
  match names with
  | [] => None
  | n :: names' =>
      if bool_decide (n = name) then Some 0
      else S <$> index_of name names'
  end.

Module Fragment.

Record position := { placement : list (option Piece); side : Color }.

Definition back_rank : list PieceType :=
  [ROOK; KNIGHT; BISHOP; QUEEN; KING; BISHOP; KNIGHT; ROOK].

Definition men (c : Color) (ts : list PieceType) : list (option Piece) :=
  (fun t => Some {| piece_type := t; color := c |}) <$> ts.

Definition starting : position :=
  {| placement :=
       men WHITE back_rank ++ men WHITE (replicate 8 PAWN)
       ++ replicate 32 None
       ++ men BLACK (replicate 8 PAWN) ++ men BLACK back_rank;
     side := WHITE |}.

Definition occupant (p : position) (sq : Square) : option Piece :=
  mjoin (placement p !! sq).

Definition opponent (c : Color) : Color :=
  match c with WHITE => BLACK | BLACK => WHITE end.

(** The square [df] files and [dr] ranks away, when it is on the board. *)
Definition offset (sq : Square) (df dr : Z) : option Square :=
  let f := (Z.of_nat (sq mod 8) + df)%Z in
  let r := (Z.of_nat (sq / 8) + dr)%Z in
  if ((0 <=? f) && (f <? 8) && (0 <=? r) && (r <? 8))%Z
  then Some (Z.to_nat (8 * r + f))
  else None.

Definition forward (c : Color) : Z :=
  match c with WHITE => 1%Z | BLACK => (-1)%Z end.

Definition home_rank (c : Color) : nat :=
  match c with WHITE => 1 | BLACK => 6 end.

Definition mv (a b : Square) : Move :=
  {| from_square := a; to_square := b; promotion := None |}.

Definition empty_target (p : position) (sq : Square) (df dr : Z)
  : option Square :=
  t ← offset sq df dr;
  match occupant p t with None => Some t | Some _ => None end.

Definition pawn_moves (p : position) (sq : Square) (c : Color)
  : list Move :=
  let advance :=
    match empty_target p sq 0 (forward c) with
    | Some t =>
        mv sq t ::
        (if sq / 8 =? home_rank c then
           match empty_target p sq 0 (2 * forward c) with
           | Some t2 => [mv sq t2]
           | None => []
           end
         else [])
    | None => []
    end in
  let capture (df : Z) :=
    match offset sq df (forward c) with
    | Some t =>
        match occupant p t with
        | Some q => if bool_decide (color q = c) then [] else [mv sq t]
        | None => []
        end
    | None => []
    end in
  advance ++ capture (-1)%Z ++ capture 1%Z.

Definition knight_moves (p : position) (sq : Square) (c : Color)
  : list Move :=
  flat_map (fun d : Z * Z =>
    match offset sq d.1 d.2 with
    | Some t =>
        match occupant p t with
        | Some q => if bool_decide (color q = c) then [] else [mv sq t]
        | None => [mv sq t]
        end
    | None => []
    end)
    [(1, 2); (2, 1); (2, -1); (1, -2);
     (-1, -2); (-2, -1); (-2, 1); (-1, 2)]%Z.

Definition moves (p : position) : list Move :=
  flat_map (fun sq =>
    match occupant p sq with
    | Some q =>
        if bool_decide (color q = side p) then
          match piece_type q with
          | PAWN => pawn_moves p sq (side p)
          | KNIGHT => knight_moves p sq (side p)
          | _ => []
          end
        else []
    | None => []
    end) (seq 0 64).

Definition play (p : position) (m : Move) : position :=
  {| placement :=
       <[to_square m := occupant p (from_square m)]>
         (<[from_square m := None]> (placement p));
     side := opponent (side p) |}.

Definition piece_of_letter (c : N) : option PieceType :=
  if (c =? 78)%N then Some KNIGHT else if (c =? 66)%N then Some BISHOP
  else if (c =? 82)%N then Some ROOK else if (c =? 81)%N then Some QUEEN
  else if (c =? 75)%N then Some KING else None.

Definition is_file (c : N) : bool := str_in [c] (u "abcdefgh").
Definition is_rank (c : N) : bool := str_in [c] (u "12345678").

(** The origin named in front of the destination: nothing, a file, a
    rank, or both, then possibly a capture sign. *)
Definition origin_matches (pre : str) (m : Move) : option bool :=
  let pre := match rev pre with
             | c :: more =>
                 if (c =? 120)%N || (c =? 45)%N then rev more else pre
             | [] => pre
             end in
  let name := default [] (SQUARE_NAMES !! from_square m) in
  match pre with
  | [] => Some true
  | [c] =>
      if is_file c then Some (bool_decide (name !! 0 = Some c))
      else if is_rank c then Some (bool_decide (name !! 1 = Some c))
      else None
  | [f; r] =>
      if is_file f && is_rank r then Some (bool_decide (name = [f; r]))
      else None
  | _ => None
  end.

(** Algebraic notation without castling, promotion and check marks: the
    one legal move of the named piece to the named square. *)
Definition san (p : position) (s : str) : option Move :=
  let '(kind, rest) :=
    match s with
    | c :: rest' =>
        match piece_of_letter c with
        | Some t => (t, rest')
        | None => (PAWN, s)
        end
    | [] => (PAWN, [])
    end in
  match rev rest with
  | r :: f :: pre_rev =>
      dest ← index_of [f; r] SQUARE_NAMES;
      let fits (m : Move) : bool :=
        bool_decide (to_square m = dest)
        && bool_decide (piece_type <$> occupant p (from_square m)
                        = Some kind)
        && bool_decide (origin_matches (rev pre_rev) m = Some true) in
      match origin_matches (rev pre_rev) (mv 0 0) with
      | None => None
      | Some _ =>
          match List.filter fits (moves p) with
          | [m] => Some m
          | _ => None
          end
      end
  | _ => None
  end.

Definition piece_symbol (t : PieceType) : str :=
  match t with
  | PAWN => u "p" | KNIGHT => u "n" | BISHOP => u "b"
  | ROOK => u "r" | QUEEN => u "q" | KING => u "k"
  end.

Definition symbol_piece (c : N) : option PieceType :=
  List.find (fun t => bool_decide (piece_symbol t = [c]))
            [PAWN; KNIGHT; BISHOP; ROOK; QUEEN; KING].

Definition move_uci (m : Move) : str :=
  match promotion m with
  | Some t =>
      default [] (SQUARE_NAMES !! from_square m)
      ++ default [] (SQUARE_NAMES !! to_square m) ++ piece_symbol t
  | None =>
      if (from_square m =? 0) && (to_square m =? 0) then u "0000"
      else default [] (SQUARE_NAMES !! from_square m)
           ++ default [] (SQUARE_NAMES !! to_square m)
  end.

Definition move_from_uci (s : str) : option Move :=
  if bool_decide (s = u "0000") then Some (mv 0 0)
  else
    match s with
    | f1 :: r1 :: f2 :: r2 :: tail =>
        a ← index_of [f1; r1] SQUARE_NAMES;
        b ← index_of [f2; r2] SQUARE_NAMES;
        promo ← match tail with
                | [] => Some None
                | [c] => Some <$> symbol_piece c
                | _ => None
                end;
        if a =? b then None
        else Some {| from_square := a; to_square := b;
                     promotion := promo |}
    | _ => None
    end.

#[global] Instance rules : ChessRules := {|
  Board := position;
  starting_board := starting;
  turn := side;
  piece_at := occupant;
  legal_moves := moves;
  push := play;
  is_game_over := fun p => bool_decide (moves p = []);
  parse_san := san;
  from_uci := move_from_uci;
  uci := move_uci;
  parse_square := fun name => index_of name SQUARE_NAMES
|}.

End Fragment.

(** ** The chat adapter: world, environment, handlers *)

(** The two temporary files of a voice message, [voice_<user_id>.ogg] and
    [voice_<user_id>.wav] in the temporary directory. *)
Inductive ext := ogg | wav.

#[global] Instance ext_eq_dec : EqDecision ext.
Proof. solve_decision. Defined.
#[global] Instance ext_countable : Countable ext :=
  inj_countable' (fun e => match e with ogg => false | wav => true end)
                 (fun b : bool => if b then wav else ogg)
                 (fun e => match e with ogg => eq_refl | wav => eq_refl end).

Definition ogg_path (uid : Z) : Z * ext := (uid, ogg).
Definition wav_path (uid : Z) : Z * ext := (uid, wav).

(** The texts the bot sends, by what they say. *)
Inductive Notice :=
| Welcome | Help | CommandFailed | UseNewgame | UseHelp | MessageFailed
| NewGameStarted | TelegramTrouble | NewGameFailed
| NoActiveGame | PieceSelected | NoPieceHere | SelectionCancelled
| InvalidMove | CannotMove | TapFailed
| StartGameFirst | NoVoice | TranscodeFailed | TranscoderMissing
| SpeechUnclear | SpeechServiceDown | MoveNotUnderstood
| VoiceInvalidMove | VoiceFailed | MovesAndStatus.

(** What goes out to the chat platform. *)
Inductive Outgoing :=
| ReplyText (n : Notice)
| ReplyPhoto (caption : Notice) (with_keyboard : bool)
| AnswerQuery (n : Notice)
| DeleteTapped
| DeleteMessage (message_id : Z).

(** The external calls of the handlers, each of which can raise. *)
Inductive Site :=
| SendText (n : Notice) | SendPhoto | SendAnswer (n : Notice)
| DeleteOld | BoardImage | GetFile | Download | Ffmpeg
| RemoveOgg | RemoveWav.

(** [s.split(sep)] on a one-character separator. *)
Fixpoint split_at_go (sep : N) (cur : str) (s : str) : list str :=
  match s with
  | [] => [rev cur]
  | c :: s' =>
      if (c =? sep)%N then rev cur :: split_at_go sep [] s'
      else split_at_go sep (c :: cur) s'
  end.

Definition split_at (sep : N) (s : str) : list str := split_at_go sep [] s.

(** How a block of statements ends: it runs on, the function returns, or an
    exception is under way. *)
Inductive flow (A : Type) : Type :=
| Next (a : A)
| Return
| Throw (e : exn).
Arguments Next {A} a.
Arguments Return {A}.
Arguments Throw {A} e.

(** [str.lower] on the name of a command.  The platform marks as a command
    only Latin letters, digits and underscores after the slash, and on
    those [lower] moves A..Z to a..z and nothing else. *)
Definition command_lower (name : str) : str :=
  List.map (fun c => if in_range 65 90 c then (c + 32)%N else c) name.

Section Adapter.
Context {U : PyUnicode} {R : ChessRules}.

(** The mutable state the handlers share: the dictionary [games], the
    temporary directory, and the log of what was sent. *)
Record World := {
  games : gmap Z ChessGame;
  files : gset (Z * ext);
  sent : list Outgoing
}.

(** What the outside answers during one event. *)
Record Env := {
  fault : Site -> option exn;     (* the exception a call raises, if any *)
  stockfish : option Engine;      (* the engine process, if it starts *)
  rnd : nat;                      (* the draw of [random.choice] *)
  sent_message_id : Z;            (* id of the photo message sent *)
  speech_tr : option str;         (* tr-TR recognition; [None]: it raised *)
  speech_en : option str;         (* en-US recognition *)
  partial_download : bool;        (* a failed download leaves its file *)
  partial_wav : bool              (* a failed transcoding leaves its file *)
}.

Definition M (A : Type) : Type := World -> flow A * World.

#[global] Instance M_ret : MRet M := fun _ a w => (Next a, w).
#[global] Instance M_bind : MBind M := fun _ _ f m w =>
  match m w with
  | (Next a, w') => f a w'
  | (Return, w') => (Return, w')
  | (Throw e, w') => (Throw e, w')
  end.

Definition raise {A} (e : exn) : M A := fun w => (Throw e, w).
Definition return_ {A} : M A := fun w => (Return, w).
Definition pass : M unit := mret tt.

Definition lift {A} (r : result A) : M A :=
  match r with Ok a => mret a | Raise e => raise e end.

(** [try: body except ...: handler].  [handler e] is [None] when no
    clause matches [e]. *)
Definition try_except (body : M unit) (handler : exn -> option (M unit))
  : M unit := fun w =>
  match body w with
  | (Throw e, w') =>
      match handler e with
      | Some h => h w'
      | None => (Throw e, w')
      end
  | r => r
  end.

(** [try: body finally: final]. *)
Definition try_finally (body final : M unit) : M unit := fun w =>
  let '(r, w') := body w in
  match final w' with
  | (Next _, w'') => (r, w'')
  | r' => r'
  end.

(** [except Exception] and bare [except]. *)
Definition any (h : M unit) : exn -> option (M unit) := fun _ => Some h.

Definition only (es : list exn) (h : M unit) : exn -> option (M unit) :=
  fun e => if bool_decide (e ∈ es) then Some h else None.

Definition modify (f : World -> World) : M unit := fun w => (Next tt, f w).
Definition read {A} (f : World -> A) : M A := fun w => (Next (f w), w).

Definition set_games (f : gmap Z ChessGame -> gmap Z ChessGame) : M unit :=
  modify (fun w => {| games := f (games w); files := files w;
                      sent := sent w |}).

Definition set_files (f : gset (Z * ext) -> gset (Z * ext)) : M unit :=
  modify (fun w => {| games := games w; files := f (files w);
                      sent := sent w |}).

Definition emit (o : Outgoing) : M unit :=
  modify (fun w => {| games := games w; files := files w;
                      sent := sent w ++ [o] |}).

Section Event.
Variable env : Env.

(** An external call at site [s]. *)
Definition call (s : Site) : M unit :=
  match fault env s with
  | Some e => raise e
  | None => pass
  end.

Definition reply_text (n : Notice) : M unit :=
  call (SendText n);; emit (ReplyText n).

Definition answer (n : Notice) : M unit :=
  call (SendAnswer n);; emit (AnswerQuery n).

Definition reply_photo (caption : Notice) (with_keyboard : bool)
  : M Z :=
  call SendPhoto;; emit (ReplyPhoto caption with_keyboard);;
  mret (sent_message_id env).

(** The session object [game] is the entry of [games] under the user's
    id: an assignment to one of its attributes updates that entry. *)
Definition the_game (uid : Z) : M ChessGame :=
  g ← read (fun w => games w !! uid);
  match g with
  | Some game => mret game
  | None => raise OtherError
  end.

Definition update_game (uid : Z) (f : ChessGame -> ChessGame) : M unit :=
  set_games (alter f uid).

(** [game.make_move(move_str)] on the session object. *)
Definition game_make_move (uid : Z) (move_str : str)
  : M (bool * option str) :=
  game ← the_game uid;
  let '(game', r) := make_move (rnd env) game move_str in
  set_games (<[uid := game']>);;
  mret r.

Definition start_command : M unit :=
  try_except (reply_text Welcome) (any (reply_text CommandFailed)).

Definition help_command : M unit :=
  try_except (reply_text Help) (any (reply_text CommandFailed)).

(** Line 243: [games[user_id] = ChessGame(user_id)]. *)
Definition create_session (uid : Z) : M unit :=
  set_games (<[uid := new_ChessGame (stockfish env) uid]>).

(** [newgame_command]. *)
Definition newgame_command (uid : Z) : M unit :=
  try_except
    (create_session uid;;
     game ← the_game uid;
     try_except
       (call BoardImage;;
        _ ← lift (create_board_keyboard game);
        message_id ← reply_photo NewGameStarted true;
        update_game uid (set_current_message_id (Some message_id)))
       (only [TelegramError] (reply_text TelegramTrouble;; return_)))
    (any (reply_text NewGameFailed)).

(** Lines 312 to 334: the board message is replaced after a move made
    by tapping. *)
Definition replace_board_message (uid : Z) : M unit :=
  game ← the_game uid;
  call BoardImage;;
  _ ← lift (create_board_keyboard game);
  message_id ← reply_photo MovesAndStatus true;
  try_except (call DeleteOld;; emit DeleteTapped)
             (any pass);;
  update_game uid (set_current_message_id (Some message_id));;
  game ← the_game uid;
  if is_game_over (board game) then set_games (delete uid) else pass.

(** [handle_square_selection]; [data] is the payload of the button. *)
Definition handle_square_selection (uid : Z) (data : str) : M unit :=
  try_except
    (registered ← read (fun w => games w !! uid);
     match registered with
     | None => answer NoActiveGame;; return_
     | Some game =>
         data ← lift (item (split_at 95 data) 1);
         square ← match parse_square data with
                  | Some sq => mret sq
                  | None => raise ValueError
                  end;
         match selected_square game with
         | None =>
             match piece_at (board game) square with
             | Some piece =>
                 if bool_decide (color piece = user_color game) then
                   update_game uid (set_selected_square (Some square));;
                   answer PieceSelected
                 else answer NoPieceHere;; return_
             | None => answer NoPieceHere;; return_
             end
         | Some selected =>
             if bool_decide (square = selected) then
               update_game uid (set_selected_square None);;
               answer SelectionCancelled
             else
               let move := {| from_square := selected;
                              to_square := square;
                              promotion := None |} in
               if bool_decide (move ∈ legal_moves (board game)) then
                 r ← game_make_move uid (uci move);
                 update_game uid (set_selected_square None);;
                 if (r.1 : bool) then replace_board_message uid
                 else answer InvalidMove
               else
                 answer CannotMove;;
                 update_game uid (set_selected_square None)
         end
     end)
    (any (answer TapFailed)).

(** Lines 487 and 488: the attachment is fetched into the ogg file. *)
Definition download (uid : Z) : M unit :=
  call GetFile;;
  match fault env Download with
  | None => set_files (union {[ogg_path uid]})
  | Some e =>
      (if partial_download env
       then set_files (union {[ogg_path uid]}) else pass);;
      raise e
  end.

(** Lines 492 to 511: the transcoder writes the wav file; its two
    expected failures are reported and end the handler. *)
Definition run_ffmpeg (uid : Z) : M unit :=
  match fault env Ffmpeg with
  | None => set_files (union {[wav_path uid]})
  | Some e =>
      (if partial_wav env
       then set_files (union {[wav_path uid]}) else pass);;
      raise e
  end.

Definition transcode (uid : Z) : M unit :=
  try_except (run_ffmpeg uid)
    (fun e =>
       match e with
       | CalledProcessError => Some (reply_text TranscodeFailed;; return_)
       | FileNotFoundError =>
           Some (reply_text TranscoderMissing;; return_)
       | _ => None
       end).

(** Lines 521 to 537: Turkish first, English when that raises; when
    both raise the user is told and the handler returns. *)
Definition recognise : M str :=
  match speech_tr env with
  | Some voice_text => mret voice_text
  | None =>
      match speech_en env with
      | Some voice_text => mret voice_text
      | None => reply_text SpeechUnclear;; return_
      end
  end.

(** Lines 551 to 576: the board message is replaced after a move made
    by voice. *)
Definition voice_board_message (uid : Z) : M unit :=
  call BoardImage;;
  message_id ← reply_photo MovesAndStatus false;
  game ← the_game uid;
  match current_message_id game with
  | Some old =>
      if bool_decide (old = 0%Z) then pass
      else try_except (call DeleteOld;; emit (DeleteMessage old))
                      (any pass)
  | None => pass
  end;;
  update_game uid (set_current_message_id (Some message_id));;
  game ← the_game uid;
  if is_game_over (board game) then set_games (delete uid) else pass.

(** Lines 584 to 592: the [finally] block. *)
Definition remove (s : Site) (p : Z * ext) : M unit :=
  present ← read (fun w => bool_decide (p ∈ files w));
  if (present : bool) then call s;; set_files (fun fs => fs ∖ {[p]})
  else pass.

Definition cleanup (uid : Z) : M unit :=
  try_except
    (remove RemoveOgg (ogg_path uid);; remove RemoveWav (wav_path uid))
    (any pass).

(** Lines 485 to 578: the body of the inner [try]. *)
Definition voice_body (uid : Z) : M unit :=
  download uid;;
  transcode uid;;
  voice_text ← recognise;
  match convert_voice_to_move voice_text with
  | None => reply_text MoveNotUnderstood;; return_
  | Some move_text =>
      r ← game_make_move uid move_text;
      if (r.1 : bool) then voice_board_message uid
      else reply_text VoiceInvalidMove
  end.

(** Lines 485 to 592: the inner [try] with its two [except] clauses
    and its [finally]; the audio download is its first statement. *)
Definition voice_attempt (uid : Z) : M unit :=
  try_finally
    (try_except (voice_body uid)
       (fun e =>
          match e with
          | UnknownValueError => Some (reply_text SpeechUnclear)
          | RequestError => Some (reply_text SpeechServiceDown)
          | _ => None
          end))
    (cleanup uid).

(** [handle_voice_message]; [attachment] tells whether the message
    carries a voice or audio file. *)
Definition handle_voice_message (uid : Z) (attachment : bool)
  : M unit :=
  try_except
    (registered ← read (fun w => games w !! uid);
     match registered with
     | None => reply_text StartGameFirst;; return_
     | Some _ =>
         if negb attachment then reply_text NoVoice;; return_
         else voice_attempt uid
     end)
    (any (reply_text VoiceFailed)).

(** [handle_message]. *)
Definition handle_message (text : str) : M unit :=
  try_except
    (let text := str_lower text in
     if str_in (u "satran" ++ [c_cedilla]) text
        || str_in (u "chess") text
     then reply_text UseNewgame
     else reply_text UseHelp)
    (any (reply_text MessageFailed)).

(** ** The handlers registered by [main] *)

(** An incoming message: a command with its arguments, other text, a
    voice note, an audio file, or something else. *)
Inductive Content :=
| Command (name : str) (args : list str)
| Text (text : str)
| Voice
| Audio
| OtherContent.

Inductive Update :=
| Message (uid : Z) (content : Content)
| CallbackQuery (uid : Z) (data : str).

Inductive Filter :=
| VOICE | AUDIO | TEXT | COMMAND
| f_or (a b : Filter) | f_and (a b : Filter) | f_not (a : Filter).

Fixpoint passes (f : Filter) (c : Content) : bool :=
  match f with
  | VOICE => match c with Voice => true | _ => false end
  | AUDIO => match c with Audio => true | _ => false end
  | TEXT => match c with Command _ _ | Text _ => true | _ => false end
  | COMMAND => match c with Command _ _ => true | _ => false end
  | f_or a b => passes a c || passes b c
  | f_and a b => passes a c && passes b c
  | f_not a => negb (passes a c)
  end.

Inductive Handler :=
| CommandHandler (command : str) (callback : Update -> M unit)
| MessageHandler (filter : Filter) (callback : Update -> M unit).

Definition callback_of (h : Handler) : Update -> M unit :=
  match h with
  | CommandHandler _ cb => cb
  | MessageHandler _ cb => cb
  end.

(** Does the handler accept the update?  A [CommandHandler] compares the
    command received with its own, both in lower case. *)
Definition check_update (h : Handler) (upd : Update) : bool :=
  match h, upd with
  | CommandHandler command _, Message _ (Command name _) =>
      bool_decide (command_lower name = command_lower command)
  | MessageHandler f _, Message _ c => passes f c
  | _, _ => false
  end.

Definition sender (upd : Update) : Z :=
  match upd with Message uid _ | CallbackQuery uid _ => uid end.

Definition has_attachment (upd : Update) : bool :=
  match upd with
  | Message _ Voice | Message _ Audio => true
  | _ => false
  end.

Definition text_of (upd : Update) : str :=
  match upd with Message _ (Text t) => t | _ => [] end.

(** The calls of [add_handler] in [main], in order. *)
Definition main_handlers : list Handler :=
  [ CommandHandler (u "start") (fun _ => start_command);
    CommandHandler (u "help") (fun _ => help_command);
    CommandHandler (u "newgame")
      (fun upd => newgame_command (sender upd));
    MessageHandler (f_or VOICE AUDIO)
      (fun upd => handle_voice_message (sender upd) (has_attachment upd));
    MessageHandler (f_and TEXT (f_not COMMAND))
      (fun upd => handle_message (text_of upd)) ].

(** The first registered handler that accepts the update, if any. *)
Definition dispatch (upd : Update) : option (Update -> M unit) :=
  callback_of <$> List.find (fun h => check_update h upd) main_handlers.

(** One event: the callback found runs; with none the update is
    dropped. *)
Definition process_update (upd : Update) : M unit :=
  match dispatch upd with
  | Some callback => callback upd
  | None => pass
  end.

End Event.
End Adapter.

(** ** The claims' vocabulary for sessions *)

Section SessionVocabulary.
Context {U : PyUnicode} {R : ChessRules}.

(** The token parses in neither notation. *)
Definition malformed (b : Board) (token : str) : Prop :=
  parse_san b token = None /\ from_uci token = None.

(** The token parses, to a move that is not legal on [b]. *)
Definition illegal (b : Board) (token : str) : Prop :=
  exists move, parse_move b token = Some move /\ move ∉ legal_moves b.

(** A selected square holds a piece of the user's side. *)
Definition selection_valid (game : ChessGame) : Prop :=
  match selected_square game with
  | Some sq =>
      exists piece,
        piece_at (board game) sq = Some piece
        /\ color piece = user_color game
  | None => True
  end.

(** The world a handler leaves behind. *)
Definition after (handler : M unit) (w : World) : World := (handler w).2.

(** [m] keeps the world inside [I], however it ends. *)
Definition preserves {A} (I : World -> Prop) (m : M A) : Prop :=
  forall w, I w -> I (m w).2.

(** A property of the world that does not look at the log. *)
Definition log_blind (I : World -> Prop) : Prop :=
  forall g f s s',
    I {| games := g; files := f; sent := s |} ->
    I {| games := g; files := f; sent := s' |}.

(** The session of [uid] is the fresh one, with or without the id of the
    board message just sent. *)
Definition fresh_session (env : Env) (uid : Z) (w : World) : Prop :=
  games w !! uid = Some (new_ChessGame (stockfish env) uid)
  \/ games w !! uid
     = Some (set_current_message_id (Some (sent_message_id env))
               (new_ChessGame (stockfish env) uid)).

(** Neither temporary file of [uid] exists. *)
Definition temp_files_gone (uid : Z) (w : World) : Prop :=
  (ogg_path uid ∉ files w) /\ (wav_path uid ∉ files w).

(** Every registered session has a valid selection. *)
Definition all_valid (w : World) : Prop :=
  forall uid game, games w !! uid = Some game -> selection_valid game.

(** The world before the first event. *)
Definition boot : World := {| games := ∅; files := ∅; sent := [] |}.

(** The worlds reached from the start by new games and keyboard taps. *)
Inductive tap_reachable : World -> Prop :=
| reach_boot : tap_reachable boot
| reach_newgame env uid w :
    tap_reachable w -> tap_reachable (after (newgame_command env uid) w)
| reach_tap env uid data w :
    tap_reachable w ->
    tap_reachable (after (handle_square_selection env uid data) w).

End SessionVocabulary.

(** An environment in which every external call succeeds, there is no
    engine binary, and the recognition service hears [heard]. *)
Definition calm `{R : ChessRules} (heard : str) : Env :=
  {| fault := fun _ => None; stockfish := None; rnd := 0;
     sent_message_id := 100%Z; speech_tr := Some heard; speech_en := None;
     partial_download := false; partial_wav := false |}.

(** The same, except that removing the ogg file raises. *)
Definition locked_ogg `{R : ChessRules} (heard : str) : Env :=
  {| fault := fun s => match s with RemoveOgg => Some OSError | _ => None end;
     stockfish := None; rnd := 0;
     sent_message_id := 100%Z; speech_tr := Some heard; speech_en := None;
     partial_download := false; partial_wav := false |}.

(** A new game for user 7, a tap on e2, then the spoken move "e2 e4". *)
Definition tap_then_voice : World (R := Fragment.rules) :=
  after (handle_voice_message (U := latin_tables)
           (calm (u "e2 e4")) 7%Z true)
    (after (handle_square_selection (calm []) 7%Z (u "square_e2"))
       (after (newgame_command (calm []) 7%Z) boot)).

(** The same with the move made by a second tap, on e4. *)
Definition tap_then_tap : World (R := Fragment.rules) :=
  after (handle_square_selection (calm []) 7%Z (u "square_e4"))
    (after (handle_square_selection (calm []) 7%Z (u "square_e2"))
       (after (newgame_command (calm []) 7%Z) boot)).

(** ** Further vocabulary for transcripts *)

Section TranscriptShapes.
Context {U : PyUnicode}.

(** What the heuristic can hand to [make_move]: a castle token, a piece
    letter of [pieces] followed by a square, or two squares in a row. *)
Definition token_shape (move : str) : Prop :=
  move = u "O-O" \/ move = u "O-O-O"
  \/ (exists p sq, In p (List.map snd pieces) /\ is_square sq = true
                   /\ move = p ++ sq)
  \/ is_combined move = true.

(** [str.lower] leaves the occurrences of [p] in place. *)
Definition lower_keeps (p : str) : Prop :=
  forall a b, exists a' b', str_lower (a ++ p ++ b) = a' ++ p ++ b'.

(** The phrases of line 414, as they can be spoken. *)
Definition short_castle_phrases : list str :=
  [ u "kisa rok"; u "k" ++ dotless_i :: u "sa rok"; u "o-o" ].

End TranscriptShapes.

(** One single-character [replace] on one character, and the six of lines
    400 and 401 in their order. *)
Definition swap_char (old new c : N) : N := if (old =? c)%N then new else c.

Definition fold_turkish (c : N) : N :=
  swap_char c_cedilla 99
    (swap_char o_diaeresis 111
       (swap_char u_diaeresis 117
          (swap_char g_breve 103
             (swap_char dotless_i 105
                (swap_char s_cedilla 115 c))))).

Definition turkish_letters : list N :=
  [s_cedilla; dotless_i; g_breve; u_diaeresis; o_diaeresis; c_cedilla].

(** ** Further vocabulary for handlers *)

Section HandlerVocabulary.
Context {R : ChessRules}.

(** Outside the session and the temporary files of [uid], [w'] is as [w]. *)
Definition same_elsewhere (uid : Z) (w w' : World) : Prop :=
  (forall k, k <> uid -> games w' !! k = games w !! k)
  /\ (forall k e, k <> uid -> (k, e) ∈ files w' <-> (k, e) ∈ files w).

(** The transcript the voice handler works on: the Turkish recognition, or
    the English one when the Turkish one raised. *)
Definition heard (env : Env) : option str :=
  match speech_tr env with
  | Some voice_text => Some voice_text
  | None => speech_en env
  end.

End HandlerVocabulary.

(** Line 306: [chess.Move(game.selected_square, square)]. *)
Definition tapped_move (selected square : Square) : Move :=
  {| from_square := selected; to_square := square; promotion := None |}.

(** Every session of [w'] was in [w] with the same selected square. *)
Definition selections_kept `{R : ChessRules} (w w' : World) : Prop :=
  forall k game',
    games w' !! k = Some game' ->
    exists game,
      games w !! k = Some game
      /\ selected_square game' = selected_square game.

(** ** The running program *)



(** * Properties *)

(** ** Transcript heuristic: lemmas *)

Section HeuristicFacts.
Context {U : PyUnicode}.

Lemma square_test_ok w : square_test w = Ok (is_square w).
Proof.
  destruct w as [|a [|b [|c w]]]; try reflexivity.
  unfold square_test, is_square, and_then, char_at; cbn -[str_in u].
  destruct (str_in [a] _); reflexivity.
Qed.

Lemma combined_test_ok w : combined_test w = Ok (is_combined w).
Proof.
  destruct w as [|a [|b [|c [|d [|e w]]]]]; try reflexivity.
  unfold combined_test, is_combined, and_then, char_at; cbn -[str_in u].
  destruct (str_in [a] _); [|reflexivity].
  destruct (str_in [b] _); [|reflexivity].
  destruct (str_in [c] _); reflexivity.
Qed.

Lemma scan_words_ok words coords :
  scan_words words coords = Ok (scan_pure words coords).
Proof.
  revert coords; induction words as [|w ws IH]; intros coords.
  - reflexivity.
  - cbn [scan_words scan_pure].
    rewrite square_test_ok; cbn [mbind result_bind].
    destruct (is_square _); [apply IH|].
    rewrite combined_test_ok; cbn [mbind result_bind].
    destruct (is_combined _); [reflexivity | apply IH].
Qed.

(** Without a combined token the loop runs to its end and has collected
    the square tokens in order of appearance. *)
Lemma scan_pure_no_combined words coords :
  List.filter is_combined (List.map (List.filter isalnum) words) = [] ->
  scan_pure words coords =
    Scanned (coords ++
             List.filter is_square (List.map (List.filter isalnum) words)).
Proof.
  revert coords; induction words as [|w ws IH]; intros coords Hc; cbn.
  - by rewrite app_nil_r.
  - cbn in Hc. destruct (is_square _) eqn:Hsq.
    + destruct (is_combined _); [discriminate|].
      rewrite IH by assumption. by rewrite <- app_assoc.
    + destruct (is_combined _); [discriminate|]. by apply IH.
Qed.

(** Whatever the loop has collected consists of square names. *)
Lemma scan_pure_squares words coords coords' :
  Forall (fun w => is_square w = true) coords ->
  scan_pure words coords = Scanned coords' ->
  Forall (fun w => is_square w = true) coords'.
Proof.
  revert coords; induction words as [|w ws IH]; intros coords Hall; cbn.
  - intros [= <-]. assumption.
  - destruct (is_square _) eqn:Hsq.
    + apply IH. apply Forall_app; split; [assumption|].
      by constructor.
    + destruct (is_combined _); [discriminate|]. by apply IH.
Qed.

Lemma is_square_inv w :
  is_square w = true -> exists f r, w = [f; r].
Proof.
  destruct w as [|a [|b [|c w]]]; try discriminate. eauto.
Qed.

Lemma build_move_ok piece coords :
  Forall (fun w => is_square w = true) coords ->
  exists r, build_move piece coords = Ok r.
Proof.
  intros Hall. unfold build_move.
  destruct coords as [|c0 [|c1 [|c2 cs]]]; cbn; eauto.
  apply Forall_cons in Hall as [Hc0 _].
  apply is_square_inv in Hc0 as (f & r & ->).
  destruct piece; cbn; eauto.
Qed.

Lemma build_move_single piece sq :
  is_square sq = true ->
  exists out, build_move piece [sq] = Ok out /\ synthesised piece sq out.
Proof.
  intros Hsq. apply is_square_inv in Hsq as (f & r & ->).
  destruct piece as [p|]; cbn; eexists; (split; [reflexivity|]).
  - reflexivity.
  - exists f, r. split; reflexivity.
Qed.

(** The heuristic on a transcript without castle phrase and without
    combined token: the move is built from the square tokens. *)
Lemma convert_body_plain voice_text :
  castle_phrase voice_text = false ->
  combined_tokens voice_text = [] ->
  convert_body voice_text =
    build_move (matched_piece voice_text) (square_tokens voice_text).
Proof.
  unfold castle_phrase, combined_tokens, square_tokens, remaining_words,
    matched_piece, stripped_text, convert_body.
  intros [-> Hl]%orb_false_elim Hcomb. rewrite Hl.
  destruct (strip_piece pieces (normalise voice_text)) as [piece text].
  cbn [fst snd] in *.
  rewrite scan_words_ok. cbn.
  by rewrite scan_pure_no_combined.
Qed.

(** A text that contains the long-castle notation contains the short one:
    the test of line 414 is met first. *)
Lemma is_prefix_app p q s : is_prefix (p ++ q) s = true -> is_prefix p s = true.
Proof.
  revert s; induction p as [|a p IH]; intros [|b s]; cbn; try done.
  destruct (N.eqb a b); [apply IH | done].
Qed.

Lemma str_in_app p q s : str_in (p ++ q) s = true -> str_in p s = true.
Proof.
  induction s as [|c s IH].
  - cbn. rewrite !orb_false_r. apply is_prefix_app.
  - cbn [str_in]. intros [H|H]%orb_true_iff; apply orb_true_iff.
    + left. by eapply is_prefix_app.
    + right. by apply IH.
Qed.

Lemma long_notation_shadowed voice_text :
  str_in (u "o-o-o") (normalise voice_text) = true ->
  convert_voice_to_move voice_text = Some (u "O-O").
Proof.
  intros H. apply (str_in_app (u "o-o") (u "-o")) in H.
  unfold convert_voice_to_move, convert_body, short_castle_phrase.
  rewrite H, !orb_true_r. reflexivity.
Qed.

Lemma short_castle_ok voice_text :
  str_in (u "kisa rok") (normalise voice_text) = true
  \/ str_in (u "o-o") (normalise voice_text) = true ->
  convert_voice_to_move voice_text = Some (u "O-O").
Proof.
  intros H. unfold convert_voice_to_move, convert_body, short_castle_phrase.
  destruct H as [-> | ->]; rewrite ?orb_true_r; reflexivity.
Qed.

Lemma long_castle_ok voice_text :
  short_castle_phrase (normalise voice_text) = false ->
  str_in (u "uzun rok") (normalise voice_text) = true ->
  convert_voice_to_move voice_text = Some (u "O-O-O").
Proof.
  intros Hs Hl. unfold convert_voice_to_move, convert_body, long_castle_phrase.
  rewrite Hs, Hl. reflexivity.
Qed.

End HeuristicFacts.

(** ** Transcript heuristic: the claims *)

(** C9.  [convert_voice_to_move] is total: on every transcript, for every
    Unicode table, the body of its [try] block finishes without raising and
    the function returns what the body returned, a move token or [None]. *)
Theorem convert_voice_to_move_total (U : PyUnicode) (voice_text : str) :
  exists r : option str,
    convert_body voice_text = Ok r /\ convert_voice_to_move voice_text = r.
Proof.
  unfold convert_voice_to_move, convert_body.
  destruct (short_castle_phrase _); [by eexists|].
  destruct (long_castle_phrase _); [by eexists|].
  destruct (strip_piece pieces (normalise voice_text)) as [piece text].
  rewrite scan_words_ok; cbn [mbind result_bind].
  destruct (scan_pure _ _) as [move|coords] eqn:Hscan; [by eexists|].
  apply scan_pure_squares in Hscan; [|constructor].
  destruct (build_move_ok piece coords Hscan) as [r ->]. by exists r.
Qed.

(** C3.  On the transcript "o-o-o" the heuristic returns the short-castle
    token "O-O", not the long-castle token: the test for "o-o" on line 414
    comes first and "o-o-o" contains "o-o". *)
Theorem long_castle_notation_gives_short_castle :
  convert_voice_to_move (U := latin_tables) (u "o-o-o") = Some (u "O-O")
  /\ convert_voice_to_move (U := latin_tables) (u "o-o-o")
     <> Some (u "O-O-O").
Proof. split; [reflexivity | discriminate]. Qed.

(** C5, as the claim is worded, fails: with one square token and a combined
    token the combined token is returned, and with one square token and a
    castle phrase the castle token is returned. *)
Lemma single_square_unguarded_fails :
  ~ (forall voice_text sq : str,
       square_tokens (U := latin_tables) voice_text = [sq] ->
       synthesised (matched_piece voice_text) sq
                   (convert_voice_to_move voice_text))
  /\ square_tokens (U := latin_tables) (u "e4 a2a3") = [u "e4"]
  /\ convert_voice_to_move (U := latin_tables) (u "e4 a2a3") = Some (u "a2a3")
  /\ square_tokens (U := latin_tables) (u "o-o e4") = [u "e4"]
  /\ convert_voice_to_move (U := latin_tables) (u "o-o e4") = Some (u "O-O").
Proof.
  split; [|repeat split; reflexivity].
  intros H. specialize (H (u "e4 a2a3") (u "e4") eq_refl).
  destruct H as (f & r & Hsq & Hout).
  injection Hsq as <- <-. vm_compute in Hout. discriminate.
Qed.

(** C5, amended.  On a transcript without castle phrase and without
    combined token from which exactly one square token remains after
    keyword stripping, the heuristic returns the piece letter followed by
    the square when a keyword was matched, and otherwise the pawn move along
    the square's file from rank 2 (destination rank 3 or 4) or rank 7. *)
Theorem single_square_move (U : PyUnicode) (voice_text sq : str) :
  castle_phrase voice_text = false ->
  combined_tokens voice_text = [] ->
  square_tokens voice_text = [sq] ->
  synthesised (matched_piece voice_text) sq
              (convert_voice_to_move voice_text).
Proof.
  intros Hcastle Hcomb Hsq.
  unfold convert_voice_to_move.
  rewrite convert_body_plain, Hsq by assumption.
  assert (is_square sq = true) as Hsquare.
  { assert (In sq (square_tokens voice_text)) as Hin
      by (rewrite Hsq; left; reflexivity).
    unfold square_tokens in Hin. by apply filter_In in Hin as [_ ?]. }
  destruct (build_move_single (matched_piece voice_text) sq Hsquare)
    as (out & -> & Hout).
  exact Hout.
Qed.

Lemma single_square_move_witness :
  synthesised (Some (u "N")) (u "f3")
              (convert_voice_to_move (U := latin_tables) (u "at f3"))
  /\ synthesised None (u "e4")
              (convert_voice_to_move (U := latin_tables) (u "e4")).
Proof.
  split.
  - apply (single_square_move latin_tables (u "at f3") (u "f3"));
      reflexivity.
  - apply (single_square_move latin_tables (u "e4") (u "e4")); reflexivity.
Defined.

(** C6.  On a transcript without castle phrase and without combined token:
    two remaining square tokens are returned concatenated in order of
    appearance; none, or more than two, give [None]. *)
Theorem square_pair_or_no_match (U : PyUnicode) (voice_text : str) :
  castle_phrase voice_text = false ->
  combined_tokens voice_text = [] ->
  (forall a b : str,
      square_tokens voice_text = [a; b] ->
      convert_voice_to_move voice_text = Some (a ++ b))
  /\ (length (square_tokens voice_text) = 0
      \/ 2 < length (square_tokens voice_text) ->
      convert_voice_to_move voice_text = None).
Proof.
  intros Hcastle Hcomb. unfold convert_voice_to_move.
  rewrite convert_body_plain by assumption. split.
  - intros a b ->. reflexivity.
  - destruct (square_tokens voice_text) as [|a [|b [|c l]]]; cbn;
      intros [H|H]; try reflexivity; try discriminate; lia.
Qed.

Lemma square_pair_or_no_match_witness :
  convert_voice_to_move (U := latin_tables) (u "e2 e4") = Some (u "e2e4")
  /\ convert_voice_to_move (U := latin_tables) (u "e2 e4 e5") = None
  /\ convert_voice_to_move (U := latin_tables) (u "merhaba") = None.
Proof.
  split; [|split].
  - apply (proj1 (square_pair_or_no_match latin_tables (u "e2 e4")
                    eq_refl eq_refl) (u "e2") (u "e4")).
    reflexivity.
  - apply (proj2 (square_pair_or_no_match latin_tables (u "e2 e4 e5")
                    eq_refl eq_refl)).
    right. vm_compute. lia.
  - apply (proj2 (square_pair_or_no_match latin_tables (u "merhaba")
                    eq_refl eq_refl)).
    left. reflexivity.
Defined.

(** ** The tap keyboard and the session *)

(** C10.  For every session the keyboard is built without an exception and
    is an 8 by 8 grid: the button in row [row] (counted from the top) and
    column [col] carries the payload "square_" followed by the name made of
    file letter number [col] of a..h and rank digit number [row] of 8..1,
    and the 64 payloads are those of the 64 squares, each exactly once. *)
Theorem keyboard_is_full_grid (R : ChessRules) (self : ChessGame) :
  exists keyboard : list (list InlineKeyboardButton),
    create_board_keyboard self = Ok keyboard
    /\ length keyboard = 8
    /\ Forall (fun row => length row = 8) keyboard
    /\ (forall row col : nat, row < 8 -> col < 8 ->
        exists f r : N,
          u "abcdefgh" !! col = Some f /\ u "87654321" !! row = Some r
          /\ keyboard !! row ≫= (.!! col)
             = Some {| button_text := [8204%N];
                       callback_data := u "square_" ++ [f; r] |})
    /\ callback_data <$> concat keyboard
       ≡ₚ (fun name => u "square_" ++ name) <$> SQUARE_NAMES
    /\ NoDup SQUARE_NAMES.
Proof.
  eexists. split; [vm_compute; reflexivity|].
  split; [reflexivity|].
  split; [repeat constructor|].
  split.
  - intros row col Hrow Hcol.
    destruct row as [|[|[|[|[|[|[|[|row]]]]]]]]; try lia;
      (destruct col as [|[|[|[|[|[|[|[|col]]]]]]]]; try lia;
       do 2 eexists; (split; [reflexivity|split; reflexivity])).
  - split; apply (bool_decide_unpack _); vm_compute; exact I.
Qed.

Lemma keyboard_is_full_grid_witness :
  exists keyboard : list (list InlineKeyboardButton),
    create_board_keyboard (new_ChessGame (R := Fragment.rules) None 7%Z)
    = Ok keyboard
    /\ keyboard !! 0 ≫= (.!! 0)
       = Some {| button_text := [8204%N]; callback_data := u "square_a8" |}
    /\ keyboard !! 7 ≫= (.!! 7)
       = Some {| button_text := [8204%N]; callback_data := u "square_h1" |}.
Proof.
  destruct (keyboard_is_full_grid Fragment.rules (new_ChessGame None 7%Z))
    as (keyboard & Hok & _ & _ & Hat & _).
  exists keyboard. split; [exact Hok|]. split.
  - destruct (Hat 0 0 ltac:(lia) ltac:(lia)) as (f & r & Hf & Hr & Hb).
    injection Hf as <-. injection Hr as <-. exact Hb.
  - destruct (Hat 7 7 ltac:(lia) ltac:(lia)) as (f & r & Hf & Hr & Hb).
    injection Hf as <-. injection Hr as <-. exact Hb.
Defined.

(** ** Rejected moves *)

(** C4.  A token that parses in neither notation, or that parses to a move
    which is not legal on the current board, makes [make_move] return
    [(False, None)] and leaves the session (board, selected square, message
    id and every other field) as it was. *)
Theorem rejected_move_changes_nothing
    (R : ChessRules) (rnd : nat) (self : ChessGame) (token : str) :
  malformed (board self) token \/ illegal (board self) token ->
  make_move rnd self token = (self, (false, None)).
Proof.
  unfold make_move, malformed, illegal, parse_move.
  intros [[Hsan Huci] | (move & Hparse & Hlegal)].
  - rewrite Hsan, Huci. reflexivity.
  - unfold parse_move in Hparse. rewrite Hparse.
    rewrite bool_decide_eq_false_2 by assumption. reflexivity.
Qed.

Lemma rejected_move_changes_nothing_witness :
  let game := new_ChessGame (R := Fragment.rules) None 7%Z in
  make_move 0 game (u "zz") = (game, (false, None))
  /\ make_move 0 game (u "e2e5") = (game, (false, None)).
Proof.
  split.
  - apply (rejected_move_changes_nothing Fragment.rules 0
             (new_ChessGame None 7%Z) (u "zz")).
    left. split; reflexivity.
  - apply (rejected_move_changes_nothing Fragment.rules 0
             (new_ChessGame None 7%Z) (u "e2e5")).
    right. exists (Fragment.mv 12 36). split; [reflexivity|].
    apply (bool_decide_eq_false_1 _). vm_compute. reflexivity.
Defined.

(** ** Handlers: what a computation preserves *)

Section AdapterFacts.
Context {R : ChessRules}.

Lemma preserves_ret {A} I (a : A) : preserves I (mret a).
Proof. intros w H. exact H. Qed.

Lemma preserves_raise {A} I e : preserves I (raise e : M A).
Proof. intros w H. exact H. Qed.

Lemma preserves_return {A} I : preserves I (return_ : M A).
Proof. intros w H. exact H. Qed.

Lemma preserves_read {A} I (f : World -> A) : preserves I (read f).
Proof. intros w H. exact H. Qed.

Lemma preserves_lift {A} I (r : result A) : preserves I (lift r).
Proof. destruct r; intros w H; exact H. Qed.

Lemma preserves_bind {A B} I (m : M A) (f : A -> M B) :
  preserves I m -> (forall a, preserves I (f a)) -> preserves I (m ≫= f).
Proof.
  intros Hm Hf w H. specialize (Hm w H).
  unfold mbind, M_bind. destruct (m w) as [[a| |e] w']; cbn in *;
    [by apply Hf | done | done].
Qed.

Lemma preserves_try_except I body handler :
  preserves I body ->
  (forall e h, handler e = Some h -> preserves I h) ->
  preserves I (try_except body handler).
Proof.
  intros Hb Hh w H. specialize (Hb w H). unfold try_except.
  destruct (body w) as [[a| |e] w']; cbn in *; try done.
  destruct (handler e) as [h|] eqn:He; [|done]. by eapply Hh.
Qed.

Lemma preserves_try_finally I body final :
  preserves I body -> preserves I final ->
  preserves I (try_finally body final).
Proof.
  intros Hb Hf w H. specialize (Hb w H). unfold try_finally.
  destruct (body w) as [r w']; cbn in *. specialize (Hf w' Hb).
  destruct (final w') as [[a| |e] w'']; done.
Qed.

Lemma preserves_modify I f :
  (forall w, I w -> I (f w)) -> preserves I (modify f).
Proof. intros Hf w H. by apply Hf. Qed.

Lemma preserves_call env I s : preserves I (call env s).
Proof.
  unfold call. destruct (fault env s);
    [apply preserves_raise | apply preserves_ret].
Qed.

Lemma preserves_emit I o : log_blind I -> preserves I (emit o).
Proof. intros Hb [g f s] H. cbn. by eapply Hb. Qed.

Lemma preserves_reply_text env I n :
  log_blind I -> preserves I (reply_text env n).
Proof.
  intros Hb. apply preserves_bind; [apply preserves_call|].
  intros _. by apply preserves_emit.
Qed.

Lemma preserves_answer env I n :
  log_blind I -> preserves I (answer env n).
Proof.
  intros Hb. apply preserves_bind; [apply preserves_call|].
  intros _. by apply preserves_emit.
Qed.

Lemma preserves_reply_photo env I c k :
  log_blind I -> preserves I (reply_photo env c k).
Proof.
  intros Hb. apply preserves_bind; [apply preserves_call|].
  intros _. apply preserves_bind; [by apply preserves_emit|].
  intros _. apply preserves_ret.
Qed.

Lemma preserves_the_game I uid : preserves I (the_game uid).
Proof.
  apply preserves_bind; [apply preserves_read|].
  intros [g|]; [apply preserves_ret | apply preserves_raise].
Qed.

(** The world after a handler guarded by [try ... except]. *)
Lemma try_except_post I body handler w :
  I (body w).2 ->
  (forall e h, handler e = Some h -> preserves I h) ->
  I (try_except body handler w).2.
Proof.
  intros Hb Hh. unfold try_except.
  destruct (body w) as [[a| |e] w']; cbn in *; try done.
  destruct (handler e) as [h|] eqn:He; [|done]. by eapply Hh.
Qed.

(** The world after a [finally] block is the one its last run left. *)
Lemma try_finally_world body final w :
  (try_finally body final w).2 = (final (body w).2).2.
Proof.
  unfold try_finally. destruct (body w) as [r w']; cbn.
  destruct (final w') as [[a| |e] w'']; reflexivity.
Qed.

Lemma create_board_keyboard_ok (self : ChessGame) :
  exists keyboard, create_board_keyboard self = Ok keyboard.
Proof. eexists. vm_compute. reflexivity. Qed.

End AdapterFacts.

(** ** New game *)

Section NewGameFacts.
Context {R : ChessRules}.
Variable env : Env.
Variable uid : Z.

Lemma preserves_bind_value {A B} I (Q : A -> Prop) (m : M A) (f : A -> M B) :
  preserves I m ->
  (forall w a w', m w = (Next a, w') -> Q a) ->
  (forall a, Q a -> preserves I (f a)) ->
  preserves I (m ≫= f).
Proof.
  intros Hm HQ Hf w H. specialize (Hm w H). specialize (HQ w).
  unfold mbind, M_bind. destruct (m w) as [[a| |e] w']; cbn in *;
    [|done|done].
  apply Hf; [by eapply HQ | done].
Qed.

Lemma reply_photo_value c k w a w' :
  reply_photo env c k w = (Next a, w') -> a = sent_message_id env.
Proof.
  unfold reply_photo, call, emit, modify, mbind, M_bind, raise, pass.
  destruct (fault env SendPhoto); cbn; [discriminate|].
  intros [= <- _]. reflexivity.
Qed.

Lemma fresh_session_log_blind : log_blind (fresh_session env uid).
Proof. intros g f s s' H. exact H. Qed.

Lemma fresh_session_message_sent :
  preserves (fresh_session env uid)
    (update_game uid
       (set_current_message_id (Some (sent_message_id env)))).
Proof.
  apply preserves_modify. intros w [H|H]; right; cbn;
    rewrite lookup_alter_eq, H; reflexivity.
Qed.

Lemma newgame_rest_preserves :
  preserves (fresh_session env uid)
    (game ← the_game uid;
     try_except
       (call env BoardImage;;
        _ ← lift (create_board_keyboard game);
        message_id ← reply_photo env NewGameStarted true;
        update_game uid (set_current_message_id (Some message_id)))
       (only [TelegramError] (reply_text env TelegramTrouble;; return_))).
Proof.
  apply preserves_bind; [apply preserves_the_game|]. intros game.
  apply preserves_try_except.
  - apply preserves_bind; [apply preserves_call|]. intros _.
    apply preserves_bind; [apply preserves_lift|]. intros _.
    apply (preserves_bind_value _ (fun a => a = sent_message_id env)).
    + apply preserves_reply_photo, fresh_session_log_blind.
    + apply reply_photo_value.
    + intros a ->. apply fresh_session_message_sent.
  - intros e h. unfold only. case_bool_decide; [|done]. intros [= <-].
    apply preserves_bind;
      [apply preserves_reply_text, fresh_session_log_blind|].
    intros _. apply preserves_return.
Qed.

Lemma newgame_fresh_session w :
  fresh_session env uid (after (newgame_command env uid) w).
Proof.
  unfold after, newgame_command. apply try_except_post.
  - unfold mbind at 1.
    unfold M_bind at 1, create_session, set_games, modify.
    apply newgame_rest_preserves. left. cbn. apply lookup_insert_eq.
  - intros e h [= <-].
    apply preserves_reply_text, fresh_session_log_blind.
Qed.

End NewGameFacts.

(** C7.  When the user already has a session, line 243 puts under the
    user's id a newly constructed session: board in the initial position,
    no selected square, no message id.  When the handler has finished, the
    entry is that session, possibly with the id of the board message just
    sent; nothing of the prior session is in it. *)
Theorem newgame_replaces_session
    (R : ChessRules) (env : Env) (w : World) (uid : Z) (old : ChessGame) :
  games w !! uid = Some old ->
  let fresh := new_ChessGame (stockfish env) uid in
  games (after (create_session env uid) w) !! uid = Some fresh
  /\ board fresh = starting_board
  /\ selected_square fresh = None
  /\ current_message_id fresh = None
  /\ (games (after (newgame_command env uid) w) !! uid = Some fresh
      \/ games (after (newgame_command env uid) w) !! uid
         = Some (set_current_message_id (Some (sent_message_id env)) fresh)).
Proof.
  intros _ fresh. split; [apply lookup_insert_eq|].
  do 3 (split; [reflexivity|]).
  apply newgame_fresh_session.
Qed.

Lemma newgame_replaces_session_witness :
  games
    (after (newgame_command (R := Fragment.rules) (calm []) 7%Z)
       {| games := {[ 7%Z := set_selected_square (Some 12)
                              (set_current_message_id (Some 5%Z)
                                 (new_ChessGame None 7%Z)) ]};
          files := ∅; sent := [] |}) !! 7%Z
  = Some (new_ChessGame None 7%Z)
  \/ games
       (after (newgame_command (R := Fragment.rules) (calm []) 7%Z)
          {| games := {[ 7%Z := set_selected_square (Some 12)
                                 (set_current_message_id (Some 5%Z)
                                    (new_ChessGame None 7%Z)) ]};
             files := ∅; sent := [] |}) !! 7%Z
     = Some (set_current_message_id (Some 100%Z) (new_ChessGame None 7%Z)).
Proof.
  exact (proj2 (proj2 (proj2 (proj2
    (newgame_replaces_session Fragment.rules (calm []) _ 7%Z _
       (lookup_singleton_eq _ _)))))).
Defined.

(** ** Temporary audio files *)

Section CleanupFacts.
Context {U : PyUnicode} {R : ChessRules}.
Variable env : Env.
Variable uid : Z.

Lemma gone_log_blind : log_blind (temp_files_gone uid).
Proof. intros g f s s' H. exact H. Qed.

Lemma remove_ok s p g f l :
  fault env s = None ->
  remove env s p {| games := g; files := f; sent := l |}
  = (Next tt, {| games := g; files := f ∖ {[p]}; sent := l |}).
Proof.
  intros Hs.
  unfold remove, call, read, set_files, modify, mbind, M_bind, pass,
    mret, M_ret.
  rewrite Hs. cbn. case_bool_decide as Hp; cbn; [reflexivity|].
  do 2 f_equal. apply set_eq. intros x.
  rewrite elem_of_difference, elem_of_singleton.
  split; [|by intros [Hx _]].
  intros Hx. split; [exact Hx|]. intros ->. exact (Hp Hx).
Qed.

(** When neither removal raises, the [finally] block leaves neither
    file, whatever the directory held. *)
Lemma cleanup_clears w :
  fault env RemoveOgg = None -> fault env RemoveWav = None ->
  temp_files_gone uid (cleanup env uid w).2.
Proof.
  intros Hogg Hwav. destruct w as [g f l].
  unfold cleanup, try_except, mbind, M_bind.
  rewrite (remove_ok _ _ _ _ _ Hogg), (remove_ok _ _ _ _ _ Hwav).
  unfold temp_files_gone; cbn. split.
  - intros [[_ H]%elem_of_difference _]%elem_of_difference.
    apply H, elem_of_singleton. reflexivity.
  - intros [_ H]%elem_of_difference.
    apply H, elem_of_singleton. reflexivity.
Qed.

Lemma voice_attempt_clears w :
  fault env RemoveOgg = None -> fault env RemoveWav = None ->
  temp_files_gone uid (voice_attempt env uid w).2.
Proof.
  intros Hogg Hwav. unfold voice_attempt.
  rewrite try_finally_world. by apply cleanup_clears.
Qed.

End CleanupFacts.

(** C8, as the claim is worded, fails: when removing the downloaded file
    raises, the [except] of the [finally] block logs the error and both
    files stay. *)
Lemma temp_files_unconditional_fails :
  ~ (forall (env : Env (R := Fragment.rules)) (w : World) (uid : Z)
            (game : ChessGame),
       games w !! uid = Some game ->
       temp_files_gone uid
         (after (handle_voice_message (U := latin_tables) env uid true) w)).
Proof.
  intros H.
  specialize (H (locked_ogg (u "e2 e4"))
                {| games := {[ 7%Z := new_ChessGame None 7%Z ]};
                   files := ∅; sent := [] |}
                7%Z (new_ChessGame None 7%Z) (lookup_singleton_eq _ _)).
  destruct H as [Hogg _]. apply Hogg.
  apply (bool_decide_unpack _). vm_compute. exact I.
Qed.

(** C8, amended.  For a user with a session and a message with an
    attachment, the handler reaches the download; when it has finished, on
    whatever path, neither temporary file exists, provided the two removals
    of the [finally] block do not themselves raise. *)
Theorem temp_files_removed
    (U : PyUnicode) (R : ChessRules)
    (env : Env) (w : World) (uid : Z) (game : ChessGame) :
  games w !! uid = Some game ->
  fault env RemoveOgg = None ->
  fault env RemoveWav = None ->
  handle_voice_message env uid true w
  = try_except (voice_attempt env uid) (any (reply_text env VoiceFailed)) w
  /\ temp_files_gone uid (after (handle_voice_message env uid true) w).
Proof.
  intros Hgame Hogg Hwav.
  assert (handle_voice_message env uid true w
          = try_except (voice_attempt env uid)
              (any (reply_text env VoiceFailed)) w) as Heq.
  { unfold handle_voice_message, try_except, read, mbind, M_bind.
    rewrite Hgame. reflexivity. }
  split; [exact Heq|].
  unfold after. rewrite Heq. apply try_except_post.
  - by apply voice_attempt_clears.
  - intros e h [= <-]. apply preserves_reply_text, gone_log_blind.
Qed.

Lemma temp_files_removed_witness :
  temp_files_gone 7%Z
    (after (handle_voice_message (U := latin_tables) (R := Fragment.rules)
              (calm (u "e2 e4")) 7%Z true)
       {| games := {[ 7%Z := new_ChessGame None 7%Z ]};
          files := {[ wav_path 7%Z ]}; sent := [] |}).
Proof.
  apply (temp_files_removed latin_tables Fragment.rules
           (calm (u "e2 e4")) _ 7%Z (new_ChessGame None 7%Z)).
  - apply lookup_singleton_eq.
  - reflexivity.
  - reflexivity.
Defined.

(** ** The tap path keeps the selection valid *)

Section TapFacts.
Context {R : ChessRules}.
Variable env : Env.
Variable uid : Z.

Lemma all_valid_log_blind : log_blind all_valid.
Proof. intros g f s s' H. exact H. Qed.

Lemma selection_valid_cleared game :
  selection_valid (set_selected_square None game).
Proof. exact I. Qed.

Lemma selection_valid_message_id m game :
  selection_valid game -> selection_valid (set_current_message_id m game).
Proof. intros H. exact H. Qed.

(** The world after [m ≫= f], from the way [m] ends. *)
Lemma bind_post {A B} (I : World -> Prop) (m : M A) (f : A -> M B) w :
  (forall a w', m w = (Next a, w') -> I (f a w').2) ->
  ((forall a w', m w <> (Next a, w')) -> I (m w).2) ->
  I ((m ≫= f) w).2.
Proof.
  intros Hnext Hstop. unfold mbind, M_bind.
  destruct (m w) as [[a| |e] w'] eqn:Hm; cbn.
  - by apply Hnext.
  - apply (Hstop ltac:(congruence)).
  - apply (Hstop ltac:(congruence)).
Qed.

Lemma preserves_alter_valid f :
  (forall game, selection_valid game -> selection_valid (f game)) ->
  preserves all_valid (update_game uid f).
Proof.
  intros Hf. apply preserves_modify. intros w Hw uid' game'. cbn.
  destruct (decide (uid' = uid)) as [->|Hne].
  - rewrite lookup_alter_eq.
    destruct (games w !! uid) as [game|] eqn:Hgame; [|discriminate].
    intros [= <-]. by eapply Hf, Hw.
  - rewrite lookup_alter_ne by done. apply Hw.
Qed.

Lemma preserves_delete_valid :
  preserves all_valid (set_games (delete uid)).
Proof.
  apply preserves_modify. intros w Hw uid' game'. cbn.
  intros [_ Hgame]%lookup_delete_Some. by eapply Hw.
Qed.

Lemma replace_board_message_valid :
  preserves all_valid (replace_board_message env uid).
Proof.
  unfold replace_board_message.
  apply preserves_bind; [apply preserves_the_game|]. intros game.
  apply preserves_bind; [apply preserves_call|]. intros _.
  apply preserves_bind; [apply preserves_lift|]. intros _.
  apply preserves_bind;
    [apply preserves_reply_photo, all_valid_log_blind|]. intros id.
  apply preserves_bind.
  { apply preserves_try_except.
    - apply preserves_bind; [apply preserves_call|]. intros _.
      apply preserves_emit, all_valid_log_blind.
    - intros e h [= <-]. apply preserves_ret. }
  intros _.
  apply preserves_bind.
  { apply preserves_alter_valid. intros g. apply selection_valid_message_id. }
  intros _.
  apply preserves_bind; [apply preserves_the_game|]. intros game'.
  destruct (is_game_over _);
    [apply preserves_delete_valid | apply preserves_ret].
Qed.

Lemma game_make_move_run game move_str w :
  games w !! uid = Some game ->
  game_make_move env uid move_str w
  = (Next (make_move (rnd env) game move_str).2,
     {| games := <[uid := (make_move (rnd env) game move_str).1]> (games w);
        files := files w; sent := sent w |}).
Proof.
  intros Hgame.
  unfold game_make_move, the_game, read, set_games, modify, mbind, M_bind,
    mret, M_ret.
  cbv beta. rewrite Hgame.
  destruct (make_move (rnd env) game move_str) as [game' r]. reflexivity.
Qed.

(** A tap that completes a move: whatever [make_move] does to the board,
    the selection is cleared before anything else can fail. *)
Lemma tap_move_valid game move_str w :
  all_valid w -> games w !! uid = Some game ->
  all_valid
    ((r ← game_make_move env uid move_str;
      update_game uid (set_selected_square None);;
      if (r.1 : bool) then replace_board_message env uid
      else answer env InvalidMove) w).2.
Proof.
  intros Hw Hgame. apply bind_post.
  2:{ intros Hstop. exfalso. eapply Hstop.
      by apply game_make_move_run. }
  intros r w1 Hrun. rewrite (game_make_move_run game) in Hrun by done.
  injection Hrun as <- <-.
  apply bind_post.
  2:{ intros Hstop. exfalso. by eapply Hstop. }
  intros [] w2 [= <-].
  assert (all_valid
            {| games := alter (set_selected_square None) uid
                          (<[uid:=(make_move (rnd env) game move_str).1]>
                             (games w));
               files := files w; sent := sent w |}) as Hw2.
  { intros uid' g. cbn.
    destruct (decide (uid' = uid)) as [->|Hne].
    - rewrite lookup_alter_eq, lookup_insert_eq. intros [= <-].
      apply selection_valid_cleared.
    - rewrite lookup_alter_ne, lookup_insert_ne by done. apply Hw. }
  destruct ((make_move (rnd env) game move_str).2.1).
  - by apply replace_board_message_valid.
  - by apply preserves_answer; [apply all_valid_log_blind|].
Qed.

Lemma tap_keeps_selection_valid data :
  preserves all_valid (handle_square_selection env uid data).
Proof.
  intros w Hw. unfold handle_square_selection. apply try_except_post.
  2:{ intros e h [= <-]. apply preserves_answer, all_valid_log_blind. }
  unfold mbind at 1. unfold M_bind at 1. unfold read.
  destruct (games w !! uid) as [game|] eqn:Hgame.
  2:{ revert w Hw Hgame. intros w Hw _. revert w Hw.
      apply preserves_bind;
        [apply preserves_answer, all_valid_log_blind|].
      intros _. apply preserves_return. }
  unfold mbind at 1. unfold M_bind at 1.
  destruct (item (split_at 95 data) 1) as [name|e]; cbn [lift]; [|exact Hw].
  unfold mret at 1, M_ret at 1.
  unfold mbind at 1. unfold M_bind at 1.
  destruct (parse_square name) as [square|]; [|exact Hw].
  unfold mret at 1, M_ret at 1.
  destruct (selected_square game) as [selected|] eqn:Hsel.
  - case_bool_decide as Hsame.
    + revert w Hw Hgame. intros w Hw _. revert w Hw.
      apply preserves_bind;
        [|intros _; apply preserves_answer, all_valid_log_blind].
      apply preserves_alter_valid. intros g _.
      apply selection_valid_cleared.
    + case_bool_decide as Hlegal.
      * by eapply tap_move_valid.
      * revert w Hw Hgame. intros w Hw _. revert w Hw.
        apply preserves_bind;
          [apply preserves_answer, all_valid_log_blind|].
        intros _. apply preserves_alter_valid. intros g _.
        apply selection_valid_cleared.
  - destruct (piece_at (board game) square) as [piece|] eqn:Hpiece.
    2:{ revert w Hw Hgame. intros w Hw _. revert w Hw.
        apply preserves_bind;
          [apply preserves_answer, all_valid_log_blind|].
        intros _. apply preserves_return. }
    case_bool_decide as Hcolor.
    2:{ revert w Hw Hgame. intros w Hw _. revert w Hw.
        apply preserves_bind;
          [apply preserves_answer, all_valid_log_blind|].
        intros _. apply preserves_return. }
    apply bind_post.
    + intros [] w' [= <-]. revert Hw. cbn.
      intros Hw. apply preserves_answer; [apply all_valid_log_blind|].
      intros uid' g. cbn.
      destruct (decide (uid' = uid)) as [->|Hne].
      * rewrite lookup_alter_eq, Hgame. intros [= <-].
        unfold selection_valid; cbn. eauto.
      * rewrite lookup_alter_ne by done. apply Hw.
    + intros Hstop. exfalso. by eapply Hstop.
Qed.

Lemma newgame_keeps_selection_valid :
  preserves all_valid (newgame_command env uid).
Proof.
  intros w Hw. unfold newgame_command. apply try_except_post.
  2:{ intros e h [= <-]. apply preserves_reply_text, all_valid_log_blind. }
  apply bind_post.
  2:{ intros Hstop. exfalso. by eapply Hstop. }
  intros [] w1 [= <-].
  assert (all_valid
            {| games := <[uid:=new_ChessGame (stockfish env) uid]> (games w);
               files := files w; sent := sent w |}) as Hw1.
  { intros uid' g. cbn.
    destruct (decide (uid' = uid)) as [->|Hne].
    - rewrite lookup_insert_eq. intros [= <-]. exact I.
    - rewrite lookup_insert_ne by done. apply Hw. }
  revert Hw1.
  generalize
    {| games := <[uid:=new_ChessGame (stockfish env) uid]> (games w);
       files := files w; sent := sent w |}.
  apply preserves_bind; [apply preserves_the_game|]. intros game.
  apply preserves_try_except.
  - apply preserves_bind; [apply preserves_call|]. intros _.
    apply preserves_bind; [apply preserves_lift|]. intros _.
    apply preserves_bind;
      [apply preserves_reply_photo, all_valid_log_blind|]. intros id.
    apply preserves_alter_valid. intros g.
    apply selection_valid_message_id.
  - intros e h. unfold only. case_bool_decide; [|done]. intros [= <-].
    apply preserves_bind;
      [apply preserves_reply_text, all_valid_log_blind|].
    intros _. apply preserves_return.
Qed.

End TapFacts.

(** Every world reached from the start by new games and taps alone has
    only valid selections: on this path the selection is set on a piece of
    the user and cleared with every completed or cancelled move. *)
Lemma tap_reachable_valid (R : ChessRules) (w : World) :
  tap_reachable w -> all_valid w.
Proof.
  induction 1 as [|env uid w _ IH|env uid data w _ IH].
  - intros uid game Hgame. cbn in Hgame. by rewrite lookup_empty in Hgame.
  - by apply newgame_keeps_selection_valid.
  - by apply tap_keeps_selection_valid.
Qed.

(** ** Dispatch *)

(** C1.  No handler registered by [main] accepts a /move command: whatever
    the arguments, the update is dropped, the world is as before, and
    [make_move] is not called. *)
Theorem move_command_has_no_handler
    (U : PyUnicode) (R : ChessRules)
    (env : Env) (uid : Z) (args : list str) (w : World) :
  dispatch env (Message uid (Command (u "move") args)) = None
  /\ process_update env (Message uid (Command (u "move") args)) w
     = (Next tt, w).
Proof.
  assert (dispatch env (Message uid (Command (u "move") args)) = None)
    as Hnone by reflexivity.
  split; [exact Hnone|].
  unfold process_update. rewrite Hnone. reflexivity.
Qed.

(** Nor does any handler accept a tap on the keyboard. *)
Lemma tap_has_no_handler
    (U : PyUnicode) (R : ChessRules) (env : Env) (uid : Z) (data : str) :
  dispatch env (CallbackQuery uid data) = None.
Proof. reflexivity. Qed.

(** ** The selected square *)

(** The handlers called directly, past the dispatch of [main]: after a new
    game, a tap on e2 and the spoken move "e2 e4", the session still has e2
    (square 12) selected although the pawn has left it for e4 (square 28),
    because the voice handler does not clear the selection; the same move
    made by a second tap clears it. *)
Lemma voice_move_leaves_stale_selection :
  parse_square (ChessRules := Fragment.rules) (u "e2") = Some 12
  /\ selected_square <$> games tap_then_voice !! 7%Z = Some (Some 12)
  /\ (fun game => piece_at (board game) 12)
       <$> games tap_then_voice !! 7%Z = Some None
  /\ (fun game => piece_type <$> piece_at (board game) 28)
       <$> games tap_then_voice !! 7%Z = Some (Some PAWN)
  /\ (forall game,
        games tap_then_voice !! 7%Z = Some game -> ~ selection_valid game)
  /\ selected_square <$> games tap_then_tap !! 7%Z = Some None.
Proof.
  assert (selected_square <$> games tap_then_voice !! 7%Z = Some (Some 12))
    as Hsel by (vm_compute; reflexivity).
  assert ((fun game => piece_at (board game) 12)
            <$> games tap_then_voice !! 7%Z = Some None)
    as Hempty by (vm_compute; reflexivity).
  split; [reflexivity|].
  split; [exact Hsel|].
  split; [exact Hempty|].
  split; [vm_compute; reflexivity|].
  split; [|vm_compute; reflexivity].
  intros game Hgame. rewrite Hgame in Hsel, Hempty.
  injection Hsel as Hsel. injection Hempty as Hempty.
  unfold selection_valid. rewrite Hsel.
  intros (piece & Hpiece & _).
  assert (Some piece = None) as Habsurd
    by (rewrite <- Hpiece; exact Hempty).
  discriminate.
Qed.

(** * Further properties *)

(** ** Transcript heuristic *)

Section HeuristicMore.
Context {U : PyUnicode}.

Lemma square_not_combined w : is_square w = true -> is_combined w = false.
Proof. destruct w as [|a [|b [|c w]]]; done. Qed.

Lemma scan_pure_first_combined words coords c rest :
  List.filter is_combined (List.map (List.filter isalnum) words) = c :: rest ->
  scan_pure words coords = Returned c.
Proof.
  revert coords; induction words as [|w ws IH]; intros coords; cbn.
  - discriminate.
  - destruct (is_square _) eqn:Hsq.
    + rewrite (square_not_combined _ Hsq). apply IH.
    + destruct (is_combined _); [|apply IH]. by intros [= <- _].
Qed.

Lemma scan_pure_returned words coords move :
  scan_pure words coords = Returned move -> is_combined move = true.
Proof.
  revert coords; induction words as [|w ws IH]; intros coords; cbn.
  - discriminate.
  - destruct (is_square _); [apply IH|].
    destruct (is_combined (List.filter isalnum w)) eqn:Hc; [|apply IH].
    by intros [= <-].
Qed.

Lemma strip_piece_letter tbl text p :
  (strip_piece tbl text).1 = Some p -> In p (List.map snd tbl).
Proof.
  induction tbl as [|[tr en] tbl IH]; cbn; [discriminate|].
  destruct (str_in tr text); cbn.
  - intros [= <-]. by left.
  - intros H. right. by apply IH.
Qed.

Lemma pawn_move_combined f r x :
  is_square [f; r] = true -> x = 50%N \/ x = 55%N ->
  is_combined [f; x; f; r] = true.
Proof.
  unfold is_square, is_combined.
  intros [Hf Hr]%andb_true_iff Hx. rewrite Hf, Hr.
  destruct Hx as [-> | ->]; reflexivity.
Qed.

Lemma two_squares_combined a b :
  is_square a = true -> is_square b = true -> is_combined (a ++ b) = true.
Proof.
  intros Ha Hb.
  destruct (is_square_inv a Ha) as (f1 & r1 & ->).
  destruct (is_square_inv b Hb) as (f2 & r2 & ->).
  unfold is_square in Ha, Hb. cbn [app]. unfold is_combined.
  apply andb_true_iff in Ha as [-> ->].
  apply andb_true_iff in Hb as [-> ->]. reflexivity.
Qed.

(** Single-character replacement is a character map. *)
Lemma replace_single old new s :
  replace [old] [new] s = List.map (swap_char old new) s.
Proof.
  unfold replace. induction s as [|c s IH]; [reflexivity|].
  cbn. unfold swap_char at 1. destruct (old =? c)%N; cbn; by rewrite IH.
Qed.

Lemma normalise_map voice_text :
  normalise voice_text
  = List.map fold_turkish (strip (str_lower voice_text)).
Proof.
  unfold normalise, fold_turkish.
  change (u "s") with [115%N]. change (u "i") with [105%N].
  change (u "g") with [103%N]. change (u "u") with [117%N].
  change (u "o") with [111%N]. change (u "c") with [99%N].
  rewrite !replace_single, !List.map_map. reflexivity.
Qed.

Lemma fold_turkish_plain x c :
  In c turkish_letters -> fold_turkish x <> c.
Proof.
  unfold fold_turkish, swap_char, turkish_letters,
    s_cedilla, dotless_i, g_breve, u_diaeresis, o_diaeresis, c_cedilla.
  intros Hc Heq. subst c.
  repeat match goal with
         | H : context [(?a =? ?b)%N] |- _ =>
             destruct (N.eqb_spec a b)
         end;
    cbn in Hc; intuition (try discriminate; try congruence).
Qed.

Lemma is_prefix_spec p s :
  is_prefix p s = true <-> exists b, s = p ++ b.
Proof.
  revert s; induction p as [|a p IH]; intros s; cbn.
  - split; eauto.
  - destruct s as [|c s]; [split; [done | by intros [b ?]]|].
    destruct (N.eqb_spec a c) as [->|Hne].
    + rewrite IH. split; intros [b Hb]; exists b; congruence.
    + split; [done|]. intros [b [= ? _]]. done.
Qed.

Lemma str_in_spec p s :
  str_in p s = true <-> exists a b, s = a ++ p ++ b.
Proof.
  induction s as [|c s IH]; cbn [str_in].
  - rewrite orb_false_r, is_prefix_spec. split.
    + intros [b Hb]. by exists [], b.
    + intros (a & b & Hab). destruct a; [by exists b|discriminate].
  - rewrite orb_true_iff, is_prefix_spec, IH. split.
    + intros [[b Hb] | (a & b & Hab)].
      * by exists [], b.
      * exists (c :: a), b. by rewrite Hab.
    + intros (a & b & Hab). destruct a as [|x a].
      * left. by exists b.
      * right. injection Hab as _ Hab. by exists a, b.
Qed.

Lemma str_in_chars p s x : str_in p s = true -> In x p -> In x s.
Proof.
  intros (a & b & ->)%str_in_spec Hx.
  apply in_or_app. right. apply in_or_app. by left.
Qed.

Lemma lstrip_keeps a c p b :
  isspace c = false ->
  exists a', lstrip (a ++ (c :: p) ++ b) = a' ++ (c :: p) ++ b.
Proof.
  intros Hc. induction a as [|x a IH]; cbn.
  - exists []. by rewrite Hc.
  - destruct (isspace x); [exact IH|]. by exists (x :: a).
Qed.

Lemma strip_keeps a p b c d p1 p2 :
  p = c :: p1 -> p = p2 ++ [d] ->
  isspace c = false -> isspace d = false ->
  exists a' b', strip (a ++ p ++ b) = a' ++ p ++ b'.
Proof.
  intros Hhead Hlast Hc Hd. unfold strip.
  destruct (lstrip_keeps a c p1 b Hc) as [a' Ha'].
  rewrite Hhead, Ha', <- Hhead.
  rewrite !rev_app_distr, <- app_assoc.
  assert (rev p = d :: rev p2) as Hrev by (rewrite Hlast; apply rev_unit).
  rewrite Hrev.
  destruct (lstrip_keeps (rev b) d (rev p2) (rev a') Hd) as [b' Hb'].
  rewrite Hb', <- Hrev. exists a', (rev b').
  rewrite !rev_app_distr, !rev_involutive, <- app_assoc. reflexivity.
Qed.

End HeuristicMore.

(** X1.  Without a castle phrase, the first combined token among the
    remaining words is returned as the move, whatever square tokens and
    piece keyword the transcript also holds. *)
Theorem combined_token_returned
    (U : PyUnicode) (voice_text c : str) (rest : list str) :
  castle_phrase voice_text = false ->
  combined_tokens voice_text = c :: rest ->
  convert_voice_to_move voice_text = Some c.
Proof.
  unfold castle_phrase, combined_tokens, remaining_words, stripped_text,
    convert_voice_to_move, convert_body.
  intros [-> ->]%orb_false_elim Hcomb.
  destruct (strip_piece pieces (normalise voice_text)) as [piece text].
  cbn [snd] in Hcomb. rewrite scan_words_ok. cbn [mbind result_bind].
  by rewrite (scan_pure_first_combined _ _ _ _ Hcomb).
Qed.

Lemma combined_token_returned_witness :
  convert_voice_to_move (U := latin_tables) (u "at e4 a2a3 b7b5")
  = Some (u "a2a3").
Proof.
  apply (combined_token_returned latin_tables (u "at e4 a2a3 b7b5")
           (u "a2a3") [u "b7b5"]); reflexivity.
Defined.

(** X2.  Whatever move the heuristic returns is a castle token, a piece
    letter of [pieces] followed by a square name, or four characters that
    are two square names in a row. *)
Theorem heuristic_token_shape (U : PyUnicode) (voice_text move : str) :
  convert_voice_to_move voice_text = Some move -> token_shape move.
Proof.
  unfold convert_voice_to_move, convert_body, token_shape.
  destruct (short_castle_phrase _); [intros [= <-]; by left|].
  destruct (long_castle_phrase _); [intros [= <-]; right; by left|].
  destruct (strip_piece pieces (normalise voice_text)) as [piece text]
    eqn:Hstrip.
  rewrite scan_words_ok. cbn [mbind result_bind].
  destruct (scan_pure _ _) as [m|coords] eqn:Hscan.
  - intros [= <-]. do 3 right. by eapply scan_pure_returned.
  - apply scan_pure_squares in Hscan; [|constructor].
    destruct coords as [|c0 [|c1 [|c2 cs]]]; try (cbn; discriminate).
    + apply Forall_cons in Hscan as [Hc0 _].
      destruct (build_move_single piece c0 Hc0) as (out & -> & Hout).
      intros [= ->]. destruct piece as [p|]; unfold synthesised in Hout.
      * injection Hout as ->. right; right; left. exists p, c0.
        split; [|done].
        apply (strip_piece_letter pieces (normalise voice_text)).
        by rewrite Hstrip.
      * destruct Hout as (f & r & -> & [= ->]). do 3 right.
        match goal with
        | |- context [if ?c then u "2" else u "7"] => destruct c
        end;
          [apply (pawn_move_combined f r 50%N)
          |apply (pawn_move_combined f r 55%N)]; auto.
    + apply Forall_cons in Hscan as [Hc0 Hscan].
      apply Forall_cons in Hscan as [Hc1 _].
      cbn. intros [= <-]. do 3 right. by apply two_squares_combined.
Qed.

Lemma heuristic_token_shape_witness :
  token_shape (u "Nf3").
Proof.
  apply (heuristic_token_shape latin_tables (u "at f3") (u "Nf3")).
  reflexivity.
Defined.

(** X3.  After lines 400 and 401 none of the letters ş ı ğ ü ö ç is left in
    the text, so the test for "kısa rok" on line 414 and the key "şah" of
    [pieces] never match. *)
Theorem turkish_letters_folded (U : PyUnicode) (voice_text : str) :
  (forall c, In c turkish_letters -> ~ In c (normalise voice_text))
  /\ str_in (u "k" ++ dotless_i :: u "sa rok") (normalise voice_text) = false
  /\ str_in (s_cedilla :: u "ah") (normalise voice_text) = false.
Proof.
  assert (forall c, In c turkish_letters -> ~ In c (normalise voice_text))
    as Hgone.
  { intros c Hc. rewrite normalise_map. intros (x & Hx & _)%in_map_iff.
    by apply (fold_turkish_plain x c). }
  split; [exact Hgone|]. split.
  - destruct (str_in _ (normalise voice_text)) eqn:Hin; [|done].
    exfalso. apply (Hgone dotless_i); [cbn; tauto|].
    apply (str_in_chars _ _ _ Hin). cbn; tauto.
  - destruct (str_in _ (normalise voice_text)) eqn:Hin; [|done].
    exfalso. apply (Hgone s_cedilla); [cbn; tauto|].
    apply (str_in_chars _ _ _ Hin). cbn; tauto.
Qed.

(** X4.  When the transcript as recognised contains "kisa rok", "kısa rok"
    or "o-o", the heuristic returns "O-O", for every Unicode table whose
    [lower] leaves that phrase in place and in which the letters k and o
    are not whitespace. *)
Theorem spoken_short_castle (U : PyUnicode) (voice_text p : str) :
  In p short_castle_phrases ->
  lower_keeps p ->
  isspace 107 = false -> isspace 111 = false ->
  str_in p voice_text = true ->
  convert_voice_to_move voice_text = Some (u "O-O").
Proof.
  intros Hp Hlower Hk Ho (a & b & ->)%str_in_spec.
  destruct (Hlower a b) as (a1 & b1 & Hl).
  assert (exists a2 b2, strip (a1 ++ p ++ b1) = a2 ++ p ++ b2)
    as (a2 & b2 & Hs).
  { destruct Hp as [<-|[<-|[<-|[]]]].
    - by apply (strip_keeps a1 _ b1 107 107 (u "isa rok") (u "kisa ro")).
    - by apply (strip_keeps a1 _ b1 107 107
                  (dotless_i :: u "sa rok") (u "k" ++ dotless_i :: u "sa ro")).
    - by apply (strip_keeps a1 _ b1 111 111 (u "-o") (u "o-")). }
  apply short_castle_ok.
  rewrite normalise_map, Hl, Hs, !List.map_app.
  destruct Hp as [<-|[<-|[<-|[]]]].
  - left. apply str_in_spec. eauto.
  - left. apply str_in_spec. eauto.
  - right. apply str_in_spec. eauto.
Qed.

Lemma latin_lower_keeps (p : str) :
  Forall (fun c => lower_char c = [c]) p -> lower_keeps (U := latin_tables) p.
Proof.
  intros Hp a b. exists (str_lower a), (str_lower b). cbn.
  rewrite !List.map_app, !List.concat_app. do 2 f_equal.
  induction Hp as [|c p Hc _ IH]; [reflexivity|].
  cbn. by rewrite Hc, IH.
Qed.

Lemma spoken_short_castle_witness :
  convert_voice_to_move (U := latin_tables)
    (u "  Evet, k" ++ dotless_i :: u "sa rok yap ") = Some (u "O-O").
Proof.
  apply (spoken_short_castle latin_tables _
           (u "k" ++ dotless_i :: u "sa rok")).
  - right; left; reflexivity.
  - apply latin_lower_keeps. repeat constructor.
  - reflexivity.
  - reflexivity.
  - reflexivity.
Defined.

(** ** The session's [make_move] *)

Section MakeMoveMore.
Context {R : ChessRules}.

Lemma random_choice_In {A} rnd (l : list A) a :
  random_choice rnd l = Ok a -> In a l.
Proof.
  unfold random_choice, item.
  destruct (nth_error l _) eqn:Hnth; [|discriminate].
  intros [= <-]. by eapply nth_error_In.
Qed.

End MakeMoveMore.

(** X5.  [make_move] changes nothing of the session but its board: the
    selected square, the message id, the user's id and colour and the
    engine are as before, whatever the token and whatever it returns. *)
Theorem make_move_touches_board_only
    (R : ChessRules) (rnd : nat) (self : ChessGame) (token : str) :
  selected_square (make_move rnd self token).1 = selected_square self
  /\ current_message_id (make_move rnd self token).1
     = current_message_id self
  /\ user_id (make_move rnd self token).1 = user_id self
  /\ user_color (make_move rnd self token).1 = user_color self
  /\ engine (make_move rnd self token).1 = engine self.
Proof.
  assert (exists b, (make_move rnd self token).1 = set_board b self)
    as [b ->]; [|by repeat split].
  assert (set_board (board self) self = self) as Hid by (by destruct self).
  unfold make_move.
  destruct (parse_move _ _) as [move|]; [|by exists (board self)].
  case_bool_decide; [|by exists (board self)].
  cbn [board set_board].
  destruct (negb _ && negb _); [|by eexists].
  destruct (choose_bot_move _ _) as [bot|e]; cbn [fst board set_board];
    by eexists.
Qed.

(** X6.  What an accepted move guarantees: the token parsed to a legal
    move, which is on the board; a reply, when there is one, follows it on
    the board and, unless the engine supplied it, is a legal move of the
    position it answers; without a reply the game is over or it is the
    user's turn. *)
Theorem accepted_move_outcome
    (R : ChessRules) (rnd : nat) (self self' : ChessGame) (token : str)
    (reply : option str) :
  make_move rnd self token = (self', (true, reply)) ->
  exists move,
    parse_move (board self) token = Some move
    /\ In move (legal_moves (board self))
    /\ match reply with
       | None =>
           board self' = push (board self) move
           /\ (is_game_over (board self') = true
               \/ turn (board self') = user_color self)
       | Some r =>
           exists bot,
             r = uci bot
             /\ board self' = push (push (board self) move) bot
             /\ is_game_over (push (board self) move) = false
             /\ ((exists play, engine self = Some play
                               /\ play (push (board self) move) = Ok bot)
                 \/ In bot (legal_moves (push (board self) move)))
       end.
Proof.
  unfold make_move.
  destruct (parse_move _ _) as [move|]; [|discriminate].
  case_bool_decide as Hlegal; [|discriminate].
  apply list_elem_of_In in Hlegal.
  cbn [board set_board user_color].
  destruct (is_game_over (push (board self) move)) eqn:Hover; cbn [negb andb].
  { intros [= <- <-]. exists move. cbn. auto. }
  case_bool_decide as Hturn; cbn [negb].
  { intros [= <- <-]. exists move. cbn. auto. }
  destruct (choose_bot_move _ _) as [bot|e] eqn:Hbot; [|discriminate].
  intros [= <- <-]. exists move. do 2 (split; [done|]).
  exists bot. cbn. do 3 (split; [done|]).
  unfold choose_bot_move in Hbot. cbn [engine board set_board] in Hbot.
  destruct (engine self) as [play|].
  - destruct (play _) as [b|e] eqn:Hplay.
    + injection Hbot as ->. left. eauto.
    + right. by eapply random_choice_In.
  - right. by eapply random_choice_In.
Qed.

Lemma accepted_move_outcome_witness :
  exists move : Move,
    parse_move (R := Fragment.rules) Fragment.starting (u "e4") = Some move
    /\ In move (Fragment.moves Fragment.starting).
Proof.
  destruct (accepted_move_outcome Fragment.rules 3 (new_ChessGame None 7%Z)
              (make_move 3 (new_ChessGame None 7%Z) (u "e4")).1
              (u "e4") (Some (u "b7b5")))
    as (move & Hparse & Hlegal & _).
  - reflexivity.
  - exists move. split; [exact Hparse | exact Hlegal].
Defined.

(** ** Handlers: what they leave alone *)

(** One step of a proof that a handler preserves a property: the rule of
    the construct at the head of the computation. *)
Ltac preserves_step :=
  first
    [ apply preserves_ret | apply preserves_raise | apply preserves_return
    | apply preserves_read | apply preserves_lift | apply preserves_call
    | apply preserves_the_game
    | apply preserves_bind; [|intros ?]
    | apply preserves_try_finally
    | apply preserves_try_except;
        [|let e := fresh "e" in
          let h := fresh "h" in
          let Hh := fresh "Hh" in
          intros e h Hh; unfold any, only in Hh;
          first [ injection Hh as <-
                | case_bool_decide; [injection Hh as <- | discriminate]
                | destruct e; try discriminate; injection Hh as <- ]]
    | match goal with
      | |- preserves _ (match ?x with _ => _ end) => destruct x
      | |- preserves _ (let '(_, _) := ?x in _) => destruct x
      end ].

Section Frame.
Context {U : PyUnicode} {R : ChessRules}.
Variable env : Env.
Variable uid : Z.
Variable w0 : World.

Lemma elsewhere_log_blind : log_blind (same_elsewhere uid w0).
Proof. intros g f s s' H. exact H. Qed.

Lemma elsewhere_games f :
  (forall g k, k <> uid -> f g !! k = g !! k) ->
  preserves (same_elsewhere uid w0) (set_games f).
Proof.
  intros Hf. apply preserves_modify. intros w [Hg Hfiles].
  split; [|exact Hfiles]. intros k Hk. cbn. by rewrite Hf, Hg.
Qed.

Lemma elsewhere_insert g :
  preserves (same_elsewhere uid w0) (set_games (<[uid := g]>)).
Proof. apply elsewhere_games. intros m k Hk. by apply lookup_insert_ne. Qed.

Lemma elsewhere_alter f :
  preserves (same_elsewhere uid w0) (update_game uid f).
Proof. apply elsewhere_games. intros m k Hk. by apply lookup_alter_ne. Qed.

Lemma elsewhere_delete :
  preserves (same_elsewhere uid w0) (set_games (delete uid)).
Proof. apply elsewhere_games. intros m k Hk. by apply lookup_delete_ne. Qed.

Lemma elsewhere_add_file e :
  preserves (same_elsewhere uid w0) (set_files (union {[(uid, e)]})).
Proof.
  apply preserves_modify. intros w [Hg Hfiles].
  split; [exact Hg|]. intros k e' Hk. cbn.
  rewrite elem_of_union, elem_of_singleton, <- Hfiles by done.
  split; [intros [[= ? _]|?]; done | by right].
Qed.

Lemma elsewhere_remove_file e :
  preserves (same_elsewhere uid w0)
    (set_files (fun fs => fs ∖ {[(uid, e)]})).
Proof.
  apply preserves_modify. intros w [Hg Hfiles].
  split; [exact Hg|]. intros k e' Hk. cbn.
  rewrite elem_of_difference, elem_of_singleton, <- Hfiles by done.
  split; [by intros [? _] | intros ?; split; [done|]].
  intros [= ? _]. done.
Qed.

(** The rules of the constructs and of the five ways the handlers change
    the world under the user's own id. *)
Ltac elsewhere :=
  repeat first
    [ apply preserves_reply_text, elsewhere_log_blind
    | apply preserves_answer, elsewhere_log_blind
    | apply preserves_reply_photo, elsewhere_log_blind
    | apply preserves_emit, elsewhere_log_blind
    | apply elsewhere_insert | apply elsewhere_alter | apply elsewhere_delete
    | apply elsewhere_add_file | apply elsewhere_remove_file
    | preserves_step ].

Lemma elsewhere_newgame :
  preserves (same_elsewhere uid w0) (newgame_command env uid).
Proof. unfold newgame_command, create_session. elsewhere. Qed.

Lemma elsewhere_tap data :
  preserves (same_elsewhere uid w0) (handle_square_selection env uid data).
Proof.
  unfold handle_square_selection, replace_board_message, game_make_move.
  elsewhere.
Qed.

Lemma elsewhere_voice attachment :
  preserves (same_elsewhere uid w0)
    (handle_voice_message env uid attachment).
Proof.
  unfold handle_voice_message, voice_attempt, voice_body, cleanup, remove,
    download, transcode, run_ffmpeg, recognise, voice_board_message,
    game_make_move, ogg_path, wav_path.
  elsewhere.
Qed.

End Frame.

(** X7.  A handler run for one user leaves every other user's session and
    temporary files as they were, in every environment and on every path. *)
Theorem handlers_leave_other_users_alone
    (U : PyUnicode) (R : ChessRules) (env : Env) (uid : Z) (w : World)
    (data : str) (attachment : bool) :
  same_elsewhere uid w (after (newgame_command env uid) w)
  /\ same_elsewhere uid w (after (handle_square_selection env uid data) w)
  /\ same_elsewhere uid w
       (after (handle_voice_message env uid attachment) w).
Proof.
  assert (same_elsewhere uid w w) as Hrefl by done.
  split; [by apply elsewhere_newgame|].
  split; [by apply elsewhere_tap | by apply elsewhere_voice].
Qed.

Section FilesUntouched.
Context {U : PyUnicode} {R : ChessRules}.
Variable env : Env.
Variable fs : gset (Z * ext).

Lemma files_log_blind : log_blind (fun w => files w = fs).
Proof. intros g f s s' H. exact H. Qed.

Lemma files_set_games f : preserves (fun w => files w = fs) (set_games f).
Proof. apply preserves_modify. intros w H. exact H. Qed.

Ltac untouched :=
  repeat first
    [ apply preserves_reply_text, files_log_blind
    | apply preserves_answer, files_log_blind
    | apply preserves_reply_photo, files_log_blind
    | apply preserves_emit, files_log_blind
    | apply files_set_games
    | preserves_step ].

Lemma files_newgame uid :
  preserves (fun w => files w = fs) (newgame_command env uid).
Proof. unfold newgame_command, create_session. untouched. Qed.

Lemma files_tap uid data :
  preserves (fun w => files w = fs) (handle_square_selection env uid data).
Proof.
  unfold handle_square_selection, replace_board_message, game_make_move,
    update_game.
  untouched.
Qed.

Lemma files_message text :
  preserves (fun w => files w = fs) (handle_message env text).
Proof. unfold handle_message. untouched. Qed.

Lemma files_start : preserves (fun w => files w = fs) (start_command env).
Proof. unfold start_command. untouched. Qed.

Lemma files_help : preserves (fun w => files w = fs) (help_command env).
Proof. unfold help_command. untouched. Qed.

End FilesUntouched.

(** X8.  Only the voice handler touches the temporary directory: the
    commands, the tap handler and the text handler leave it as it was. *)
Theorem temp_directory_untouched
    (U : PyUnicode) (R : ChessRules) (env : Env) (uid : Z) (w : World)
    (data text : str) :
  files (after (newgame_command env uid) w) = files w
  /\ files (after (handle_square_selection env uid data) w) = files w
  /\ files (after (handle_message env text) w) = files w
  /\ files (after (start_command env) w) = files w
  /\ files (after (help_command env) w) = files w.
Proof.
  split; [by apply files_newgame|].
  split; [by apply files_tap|].
  split; [by apply files_message|].
  split; [by apply files_start | by apply files_help].
Qed.

(** ** Taps, path by path *)

Section TapPaths.
Context {R : ChessRules}.
Variable env : Env.
Variable uid : Z.

Lemma registry_log_blind G : log_blind (fun w => games w = G).
Proof. intros g f s s' H. exact H. Qed.

(** Entering the handler with a session and a payload that names a
    square: what is left is the case analysis of lines 291 to 339. *)
Ltac tap_enter Hgame Hitem Hparse :=
  unfold after, handle_square_selection;
  apply try_except_post;
    [|intros ? ? [= <-]; apply preserves_answer, registry_log_blind];
  unfold mbind at 1; unfold M_bind at 1; unfold read; rewrite Hgame;
  unfold mbind at 1; unfold M_bind at 1; rewrite Hitem; cbn [lift];
  unfold mret at 1, M_ret at 1;
  unfold mbind at 1; unfold M_bind at 1; rewrite Hparse;
  unfold mret at 1, M_ret at 1.

Lemma answer_then_return G n w :
  games w = G -> games ((answer env n;; return_ : M unit) w).2 = G.
Proof.
  revert w. apply (preserves_bind (fun w => games w = G)).
  - apply preserves_answer, registry_log_blind.
  - intros _. apply preserves_return.
Qed.

Lemma update_then_answer f n w :
  games ((update_game uid f;; answer env n) w).2 = alter f uid (games w).
Proof.
  apply (bind_post (fun w' => games w' = alter f uid (games w))).
  - intros [] w' [= <-].
    by apply preserves_answer; [apply registry_log_blind|].
  - intros Hstop. exfalso. by eapply Hstop.
Qed.

Lemma tap_without_session data w :
  games w !! uid = None ->
  games (after (handle_square_selection env uid data) w) = games w.
Proof.
  intros Hgame. unfold after, handle_square_selection.
  apply try_except_post;
    [|intros ? ? [= <-]; apply preserves_answer, registry_log_blind].
  unfold mbind at 1; unfold M_bind at 1; unfold read; rewrite Hgame.
  by apply answer_then_return.
Qed.

Lemma tap_bad_payload data game w :
  games w !! uid = Some game ->
  (forall name, item (split_at 95 data) 1 = Ok name ->
                parse_square name = None) ->
  games (after (handle_square_selection env uid data) w) = games w.
Proof.
  intros Hgame Hbad. unfold after, handle_square_selection.
  apply try_except_post;
    [|intros ? ? [= <-]; apply preserves_answer, registry_log_blind].
  unfold mbind at 1; unfold M_bind at 1; unfold read; rewrite Hgame.
  unfold mbind at 1; unfold M_bind at 1.
  destruct (item (split_at 95 data) 1) as [name|e]; cbn [lift]; [|done].
  unfold mret at 1, M_ret at 1.
  unfold mbind at 1; unfold M_bind at 1.
  by rewrite (Hbad name eq_refl).
Qed.

Lemma tap_nothing_to_select data name sq game w :
  games w !! uid = Some game ->
  item (split_at 95 data) 1 = Ok name ->
  parse_square name = Some sq ->
  selected_square game = None ->
  (forall piece, piece_at (board game) sq = Some piece ->
                 color piece <> user_color game) ->
  games (after (handle_square_selection env uid data) w) = games w.
Proof.
  intros Hgame Hitem Hparse Hsel Hpiece.
  tap_enter Hgame Hitem Hparse. rewrite Hsel.
  destruct (piece_at (board game) sq) as [piece|];
    [|by apply answer_then_return].
  rewrite bool_decide_eq_false_2 by by apply Hpiece.
  by apply answer_then_return.
Qed.

Lemma tap_selects data name sq game piece w :
  games w !! uid = Some game ->
  item (split_at 95 data) 1 = Ok name ->
  parse_square name = Some sq ->
  selected_square game = None ->
  piece_at (board game) sq = Some piece ->
  color piece = user_color game ->
  games (after (handle_square_selection env uid data) w)
  = alter (set_selected_square (Some sq)) uid (games w).
Proof.
  intros Hgame Hitem Hparse Hsel Hpiece Hcolor.
  tap_enter Hgame Hitem Hparse. rewrite Hsel, Hpiece.
  rewrite bool_decide_eq_true_2 by done.
  apply update_then_answer.
Qed.

Lemma tap_cancels data name sq game w :
  games w !! uid = Some game ->
  item (split_at 95 data) 1 = Ok name ->
  parse_square name = Some sq ->
  selected_square game = Some sq ->
  games (after (handle_square_selection env uid data) w)
  = alter (set_selected_square None) uid (games w).
Proof.
  intros Hgame Hitem Hparse Hsel.
  tap_enter Hgame Hitem Hparse. rewrite Hsel.
  rewrite bool_decide_eq_true_2 by done.
  apply update_then_answer.
Qed.

End TapPaths.

(** X9.  A first tap on a square holding a piece of the user records the
    square as selected, and a second tap on the same square takes the
    registry back to what it was before the first: nothing was moved.
    Both hold whether or not the answers to the taps can be delivered. *)
Theorem tap_twice_cancels
    (R : ChessRules) (env1 env2 : Env) (uid : Z) (data name : str)
    (sq : Square) (game : ChessGame) (piece : Piece) (w : World) :
  games w !! uid = Some game ->
  item (split_at 95 data) 1 = Ok name ->
  parse_square name = Some sq ->
  selected_square game = None ->
  piece_at (board game) sq = Some piece ->
  color piece = user_color game ->
  games (after (handle_square_selection env1 uid data) w) !! uid
  = Some (set_selected_square (Some sq) game)
  /\ games (after (handle_square_selection env2 uid data)
              (after (handle_square_selection env1 uid data) w))
     = games w.
Proof.
  intros Hgame Hitem Hparse Hsel Hpiece Hcolor.
  assert (games (after (handle_square_selection env1 uid data) w) !! uid
          = Some (set_selected_square (Some sq) game)) as Hfirst.
  { rewrite (tap_selects env1 uid data name sq game piece) by done.
    by rewrite lookup_alter_eq, Hgame. }
  split; [exact Hfirst|].
  rewrite (tap_cancels env2 uid data name sq _ _ Hfirst Hitem Hparse eq_refl).
  rewrite (tap_selects env1 uid data name sq game piece) by done.
  apply map_eq. intros k. destruct (decide (k = uid)) as [->|Hne].
  - rewrite !lookup_alter_eq, Hgame. cbn.
    destruct game; cbn in *. by subst.
  - by rewrite !lookup_alter_ne.
Qed.

Lemma tap_twice_cancels_witness :
  games (after (handle_square_selection (R := Fragment.rules)
                  (calm []) 7%Z (u "square_e2"))
           (after (handle_square_selection (locked_ogg []) 7%Z
                     (u "square_e2"))
              {| games := {[ 7%Z := new_ChessGame None 7%Z ]};
                 files := ∅; sent := [] |}))
  = {[ 7%Z := new_ChessGame None 7%Z ]}.
Proof.
  refine (proj2 (tap_twice_cancels Fragment.rules (locked_ogg []) (calm [])
                   7%Z (u "square_e2") (u "e2") 12
                   (new_ChessGame None 7%Z)
                   {| piece_type := PAWN; color := WHITE |}
                   {| games := {[ 7%Z := new_ChessGame None 7%Z ]};
                      files := ∅; sent := [] |}
                   (lookup_singleton_eq _ _) _ _ _ _ _)); reflexivity.
Defined.

(** X10.  A tap leaves the registry as it was when the user has no
    session, when the payload names no square, or when no square is
    selected and the tapped square holds no piece of the user's colour. *)
Theorem rejected_tap_changes_nothing
    (R : ChessRules) (env : Env) (uid : Z) (data : str) (w : World) :
  games w !! uid = None
  \/ (exists game,
        games w !! uid = Some game
        /\ forall name, item (split_at 95 data) 1 = Ok name ->
                        parse_square name = None)
  \/ (exists game name sq,
        games w !! uid = Some game
        /\ item (split_at 95 data) 1 = Ok name
        /\ parse_square name = Some sq
        /\ selected_square game = None
        /\ forall piece, piece_at (board game) sq = Some piece ->
                         color piece <> user_color game) ->
  games (after (handle_square_selection env uid data) w) = games w.
Proof.
  intros [Hnone | [(game & Hgame & Hbad)
                  | (game & name & sq & Hgame & Hitem & Hparse & Hsel & Hp)]].
  - by apply tap_without_session.
  - by eapply tap_bad_payload.
  - by eapply tap_nothing_to_select.
Qed.

Lemma rejected_tap_changes_nothing_witness :
  games (after (handle_square_selection (R := Fragment.rules)
                  (calm []) 7%Z (u "square_e7"))
           {| games := {[ 7%Z := new_ChessGame None 7%Z ]};
              files := ∅; sent := [] |})
  = {[ 7%Z := new_ChessGame None 7%Z ]}
  /\ games (after (handle_square_selection (R := Fragment.rules)
                     (calm []) 7%Z (u "e7"))
              {| games := {[ 7%Z := new_ChessGame None 7%Z ]};
                 files := ∅; sent := [] |})
     = {[ 7%Z := new_ChessGame None 7%Z ]}.
Proof.
  split.
  - apply (rejected_tap_changes_nothing Fragment.rules (calm []) 7%Z
             (u "square_e7")).
    right; right.
    exists (new_ChessGame None 7%Z), (u "e7"), 52.
    split; [apply lookup_singleton_eq|].
    do 3 (split; [reflexivity|]).
    intros piece [= <-]. discriminate.
  - apply (rejected_tap_changes_nothing Fragment.rules (calm []) 7%Z
             (u "e7")).
    right; left. exists (new_ChessGame None 7%Z).
    split; [apply lookup_singleton_eq|]. intros name Hname.
    vm_compute in Hname. discriminate.
Defined.

(** ** Routing and the keyboard payloads *)

(** X11.  How [main] routes an update: the three commands, in any mix of
    upper and lower case, voice and audio messages and plain text go to
    their handlers; every other command, every tap on the keyboard and
    every other message is dropped. *)
Theorem routing
    (U : PyUnicode) (R : ChessRules) (env : Env) (upd : Update) :
  process_update env upd
  = match upd with
    | Message uid (Command name _) =>
        if bool_decide (command_lower name = u "start")
        then start_command env
        else if bool_decide (command_lower name = u "help")
             then help_command env
        else if bool_decide (command_lower name = u "newgame")
             then newgame_command env uid
        else pass
    | Message uid Voice | Message uid Audio =>
        handle_voice_message env uid true
    | Message _ (Text text) => handle_message env text
    | Message _ OtherContent => pass
    | CallbackQuery _ _ => pass
    end.
Proof.
  destruct upd as [uid [name args|text| | |]|uid data]; try reflexivity.
  unfold process_update, dispatch, main_handlers.
  cbn [List.find check_update].
  change (command_lower (u "start")) with (u "start").
  change (command_lower (u "help")) with (u "help").
  change (command_lower (u "newgame")) with (u "newgame").
  repeat (case_bool_decide; [reflexivity|]). reflexivity.
Qed.

(** X12.  The payload of every button decodes, the way lines 287 and 288
    decode it, to the square the button stands for: row [row] from the top
    and column [col] give square [8 * (7 - row) + col].  The rules library
    is assumed to parse square names by their position in
    [SQUARE_NAMES]. *)
Theorem keyboard_payload_decodes
    (R : ChessRules) (self : ChessGame)
    (keyboard : list (list InlineKeyboardButton))
    (row col : nat) (button : InlineKeyboardButton) :
  (forall name, parse_square name = index_of name SQUARE_NAMES) ->
  create_board_keyboard self = Ok keyboard ->
  keyboard !! row ≫= (.!! col) = Some button ->
  exists name,
    item (split_at 95 (callback_data button)) 1 = Ok name
    /\ parse_square name = Some (8 * (7 - row) + col).
Proof.
  intros Hparse Hkb Hbutton.
  vm_compute in Hkb. injection Hkb as <-.
  destruct row as [|[|[|[|[|[|[|[|row]]]]]]]]; try discriminate;
    (destruct col as [|[|[|[|[|[|[|[|col]]]]]]]]; try discriminate;
     injection Hbutton as <-; eexists;
     (split; [vm_compute; reflexivity | rewrite Hparse; reflexivity])).
Qed.

Lemma keyboard_payload_decodes_witness :
  exists name,
    item (split_at 95 (u "square_e2")) 1 = Ok name
    /\ parse_square (ChessRules := Fragment.rules) name = Some 12.
Proof.
  destruct (create_board_keyboard_ok
              (new_ChessGame (R := Fragment.rules) None 7%Z))
    as [keyboard Hkb].
  apply (keyboard_payload_decodes Fragment.rules (new_ChessGame None 7%Z)
           keyboard 6 4
           {| button_text := [8204%N]; callback_data := u "square_e2" |}).
  - reflexivity.
  - exact Hkb.
  - vm_compute in Hkb. injection Hkb as <-. reflexivity.
Defined.

(** ** Voice messages, path by path *)

Section VoicePaths.
Context {U : PyUnicode} {R : ChessRules}.
Variable env : Env.
Variable uid : Z.











End VoicePaths.



(** ** The downloaded file *)

Section OggFacts.
Context {U : PyUnicode} {R : ChessRules}.
Variable env : Env.
Variable uid : Z.

Lemma ogg_gone_log_blind : log_blind (fun w => ogg_path uid ∉ files w).
Proof. intros g f s s' H. exact H. Qed.

(** The removal of the ogg file comes first: it does not depend on how the
    removal of the wav file goes. *)
Lemma cleanup_clears_ogg w :
  fault env RemoveOgg = None ->
  ogg_path uid ∉ files (cleanup env uid w).2.
Proof.
  intros Hogg. destruct w as [g f l].
  unfold cleanup. apply try_except_post.
  - apply bind_post.
    + intros [] w1. rewrite (remove_ok env _ _ _ _ _ Hogg).
      intros [= <-].
      assert (ogg_path uid ∉ f ∖ {[ogg_path uid]}) as Hgone.
      { intros [_ H]%elem_of_difference. apply H, elem_of_singleton.
        reflexivity. }
      revert Hgone.
      generalize (f ∖ {[ogg_path uid]}). intros f1 Hgone.
      unfold remove, read, call, set_files, modify, mbind, M_bind, pass,
        raise, mret, M_ret. cbv beta. cbn [files].
      case_bool_decide; [|exact Hgone].
      destruct (fault env RemoveWav); cbn; [exact Hgone|].
      by intros [? _]%elem_of_difference.
    + intros Hstop. exfalso. eapply Hstop.
      by apply (remove_ok env).
  - intros e h [= <-]. apply preserves_ret.
Qed.

End OggFacts.

(** X14.  For a user with a session and a message with an attachment, the
    downloaded ogg file is gone when the handler has finished, on every
    path, provided its own removal does not raise: a failure to remove the
    wav file does not keep it. *)
Theorem downloaded_file_removed
    (U : PyUnicode) (R : ChessRules)
    (env : Env) (w : World) (uid : Z) (game : ChessGame) :
  games w !! uid = Some game ->
  fault env RemoveOgg = None ->
  ogg_path uid ∉ files (after (handle_voice_message env uid true) w).
Proof.
  intros Hgame Hogg.
  assert (handle_voice_message env uid true w
          = try_except (voice_attempt env uid)
              (any (reply_text env VoiceFailed)) w) as Heq.
  { unfold handle_voice_message, try_except, read, mbind, M_bind.
    rewrite Hgame. reflexivity. }
  unfold after. rewrite Heq. apply try_except_post.
  - unfold voice_attempt. rewrite try_finally_world.
    by apply cleanup_clears_ogg.
  - intros e h [= <-]. apply preserves_reply_text, ogg_gone_log_blind.
Qed.

Lemma downloaded_file_removed_witness :
  ogg_path 7%Z ∉
    files (after (handle_voice_message (U := latin_tables)
                    (R := Fragment.rules)
                    {| fault := fun s => match s with
                                         | RemoveWav => Some OSError
                                         | _ => None
                                         end;
                       stockfish := None; rnd := 0;
                       sent_message_id := 100%Z;
                       speech_tr := Some (u "e4"); speech_en := None;
                       partial_download := false; partial_wav := false |}
                    7%Z true)
             {| games := {[ 7%Z := new_ChessGame None 7%Z ]};
                files := ∅; sent := [] |}).
Proof.
  apply (downloaded_file_removed latin_tables Fragment.rules _ _ 7%Z
           (new_ChessGame None 7%Z)).
  - apply lookup_singleton_eq.
  - reflexivity.
Defined.

(** ** A move completed by tapping *)

Section TapMove.
Context {R : ChessRules}.
Variable env : Env.
Variable uid : Z.

(** Lines 312 to 334 when the image service and the platform answer. *)
Lemma replace_board_message_games g w :
  games w !! uid = Some g ->
  fault env BoardImage = None ->
  fault env SendPhoto = None ->
  games (replace_board_message env uid w).2
  = if is_game_over (board g) then delete uid (games w)
    else <[uid := set_current_message_id (Some (sent_message_id env)) g]>
           (games w).
Proof.
  intros Hgame Himage Hphoto.
  destruct (create_board_keyboard_ok g) as [kb Hkb].
  unfold replace_board_message, the_game, read, reply_photo, call, emit,
    update_game, set_games, modify, try_except, any, pass, lift, raise,
    mbind, M_bind, mret, M_ret.
  cbv beta. rewrite Hgame, Himage, Hkb, Hphoto. cbn [games files sent].
  destruct (fault env DeleteOld); cbn [games files sent];
    rewrite lookup_alter_eq, Hgame; cbn [fmap option_fmap option_map board
      set_current_message_id];
    (destruct (is_game_over (board g)); cbn [games snd];
     [apply delete_alter_eq
     |apply map_eq; intros k; destruct (decide (k = uid)) as [->|Hne];
      [by rewrite lookup_alter_eq, lookup_insert_eq, Hgame
      |by rewrite lookup_alter_ne, lookup_insert_ne]]).
Qed.

End TapMove.

(** X15.  A second tap on another square that makes a legal move which
    [make_move] accepts, with the image service and the platform
    answering: the session gets the board [make_move] left, no selected
    square and the id of the new board message, or is removed from the
    registry when the game is over. *)
Theorem tap_move_outcome
    (R : ChessRules) (env : Env) (uid : Z) (data name : str)
    (sq selected : Square) (game game' : ChessGame) (reply : option str)
    (w : World) :
  games w !! uid = Some game ->
  item (split_at 95 data) 1 = Ok name ->
  parse_square name = Some sq ->
  selected_square game = Some selected ->
  sq <> selected ->
  In (tapped_move selected sq) (legal_moves (board game)) ->
  make_move (rnd env) game (uci (tapped_move selected sq))
  = (game', (true, reply)) ->
  fault env BoardImage = None ->
  fault env SendPhoto = None ->
  games (after (handle_square_selection env uid data) w)
  = if is_game_over (board game') then delete uid (games w)
    else <[uid := set_current_message_id (Some (sent_message_id env))
                    (set_selected_square None game')]> (games w).
Proof.
  intros Hgame Hitem Hparse Hsel Hother Hlegal Hmove Himage Hphoto.
  unfold after, handle_square_selection.
  apply try_except_post;
    [|intros ? ? [= <-]; apply preserves_answer, registry_log_blind].
  unfold mbind at 1; unfold M_bind at 1; unfold read; rewrite Hgame.
  unfold mbind at 1; unfold M_bind at 1; rewrite Hitem; cbn [lift].
  unfold mret at 1, M_ret at 1.
  unfold mbind at 1; unfold M_bind at 1; rewrite Hparse.
  unfold mret at 1, M_ret at 1.
  rewrite Hsel, bool_decide_eq_false_2 by done.
  rewrite bool_decide_eq_true_2 by by apply list_elem_of_In.
  apply bind_post.
  2:{ intros Hstop. exfalso. eapply Hstop.
      by apply (game_make_move_run env uid game). }
  intros r w1 Hrun.
  rewrite (game_make_move_run env uid game) in Hrun by done.
  fold (tapped_move selected sq) in Hrun. rewrite Hmove in Hrun.
  injection Hrun as <- <-. cbn [fst snd].
  apply bind_post.
  2:{ intros Hstop. exfalso. by eapply Hstop. }
  intros [] w2 [= <-].
  rewrite (replace_board_message_games env uid
             (set_selected_square None game')); [|cbn [games]|done|done].
  - cbn [board set_selected_square games].
    destruct (is_game_over (board game')).
    + by rewrite delete_alter_eq, delete_insert_eq.
    + by rewrite insert_alter_eq, insert_insert_eq.
  - by rewrite lookup_alter_eq, lookup_insert_eq.
Qed.

Lemma tap_move_outcome_witness :
  games
    (after (handle_square_selection (R := Fragment.rules)
              (calm []) 7%Z (u "square_e4"))
       {| games := {[ 7%Z := set_selected_square (Some 12)
                              (new_ChessGame None 7%Z) ]};
          files := ∅; sent := [] |})
  = if is_game_over
         (board (make_move 0 (set_selected_square (Some 12)
                                (new_ChessGame None 7%Z)) (u "e2e4")).1)
    then delete 7%Z {[ 7%Z := set_selected_square (Some 12)
                              (new_ChessGame None 7%Z) ]}
    else <[ 7%Z := set_current_message_id (Some 100%Z)
                    (set_selected_square None
                       (make_move 0 (set_selected_square (Some 12)
                                       (new_ChessGame None 7%Z))
                          (u "e2e4")).1) ]>
           {[ 7%Z := set_selected_square (Some 12)
                        (new_ChessGame None 7%Z) ]}.
Proof.
  apply (tap_move_outcome Fragment.rules (calm []) 7%Z (u "square_e4")
           (u "e4") 28 12
           (set_selected_square (Some 12) (new_ChessGame None 7%Z))
           _ (Some (u "a7a6"))).
  - apply lookup_singleton_eq.
  - reflexivity.
  - reflexivity.
  - reflexivity.
  - lia.
  - apply list_elem_of_In, (bool_decide_unpack _). vm_compute. exact I.
  - reflexivity.
  - reflexivity.
  - reflexivity.
Defined.

(** ** The selection and the voice handler *)

Section SelectionKept.
Context {U : PyUnicode} {R : ChessRules}.
Variable env : Env.
Variable uid : Z.
Variable w0 : World.

Lemma kept_log_blind : log_blind (selections_kept w0).
Proof. intros g f s s' H. exact H. Qed.

Lemma kept_set_files f : preserves (selections_kept w0) (set_files f).
Proof. apply preserves_modify. intros w H. exact H. Qed.

Lemma kept_delete : preserves (selections_kept w0) (set_games (delete uid)).
Proof.
  apply preserves_modify. intros w Hw k game'. cbn.
  intros [_ Hk]%lookup_delete_Some. by apply Hw.
Qed.

Lemma kept_message_id m :
  preserves (selections_kept w0)
    (update_game uid (set_current_message_id m)).
Proof.
  apply preserves_modify. intros w Hw k game'. cbn.
  destruct (decide (k = uid)) as [->|Hne].
  - rewrite lookup_alter_eq.
    destruct (games w !! uid) as [game|] eqn:Hgame; [|discriminate].
    intros [= <-]. exact (Hw uid game Hgame).
  - rewrite lookup_alter_ne by done. apply Hw.
Qed.

Lemma make_move_sets_board rnd (self : ChessGame) token :
  exists b, (make_move rnd self token).1 = set_board b self.
Proof.
  assert (set_board (board self) self = self) as Hid by (by destruct self).
  unfold make_move.
  destruct (parse_move _ _) as [move|]; [|by exists (board self)].
  case_bool_decide; [|by exists (board self)].
  cbn [board set_board].
  destruct (negb _ && negb _); [|by eexists].
  destruct (choose_bot_move _ _) as [bot|e]; cbn [fst board set_board];
    by eexists.
Qed.

Lemma kept_make_move token :
  preserves (selections_kept w0) (game_make_move env uid token).
Proof.
  intros w Hw.
  unfold game_make_move, the_game, read, set_games, modify, mbind, M_bind,
    mret, M_ret, raise. cbv beta.
  destruct (games w !! uid) as [game|] eqn:Hgame; [|exact Hw].
  destruct (make_move_sets_board (rnd env) game token) as [b Hb].
  destruct (make_move (rnd env) game token) as [game1 r]. cbn in Hb.
  subst game1. cbn. intros k game'. cbn [games].
  destruct (decide (k = uid)) as [->|Hne].
  - rewrite lookup_insert_eq. intros [= <-]. exact (Hw uid game Hgame).
  - rewrite lookup_insert_ne by done. apply Hw.
Qed.

Ltac kept :=
  repeat first
    [ apply preserves_reply_text, kept_log_blind
    | apply preserves_answer, kept_log_blind
    | apply preserves_reply_photo, kept_log_blind
    | apply preserves_emit, kept_log_blind
    | apply kept_set_files | apply kept_delete | apply kept_message_id
    | apply kept_make_move
    | preserves_step ].

Lemma kept_voice attachment :
  preserves (selections_kept w0) (handle_voice_message env uid attachment).
Proof.
  unfold handle_voice_message, voice_attempt, voice_body, cleanup, remove,
    download, transcode, run_ffmpeg, recognise, voice_board_message.
  kept.
Qed.

End SelectionKept.

(** X16.  The voice handler never changes a selected square: every session
    in the registry after it was there before with the same selected
    square, whether or not a move was made. *)
Theorem voice_keeps_selected_square
    (U : PyUnicode) (R : ChessRules) (env : Env) (uid : Z)
    (attachment : bool) (w : World) :
  selections_kept w (after (handle_voice_message env uid attachment) w).
Proof.
  apply kept_voice. intros k game' Hk. by exists game'.
Qed.

(** ** The selection in the running program *)

Section Reachable.
Context {U : PyUnicode} {R : ChessRules}.
Variable env : Env.












End Reachable.


(** No spelling of /move has a handler either. *)
Lemma move_command_any_case
    (U : PyUnicode) (R : ChessRules) (env : Env) (uid : Z)
    (name : str) (args : list str) :
  command_lower name = u "move" ->
  dispatch env (Message uid (Command name args)) = None.
Proof.
  intros Hname. unfold dispatch, main_handlers.
  cbn [List.find check_update]. rewrite Hname. reflexivity.
Qed.


